(** * pypsh: parallel ssh command execution

    A shallow embedding of [src/pypsh/main.py] and the properties of its
    workers ([Executor._exec]), of host selection ([get_hosts]), of the
    orchestrator ([start_procs]) and of the final report ([print_result]).

    Layout: the Python built-ins and library calls the program relies on
    come first (strings, [sorted], [termcolor.colored], the [re] fragment,
    exceptions and the paramiko session), then the program itself, then the
    lemmas.  The worker and the orchestrator come twice: once with the
    calls around them returning ([Worker._exec], [Pypsh.start_procs]), and
    once with what these calls may raise ([Worker._exec_closing] for
    [client.close()], [Whole] for the opening of [~/.ssh/config] and for
    [sleep]). *)

From Stdlib Require Import Bool Arith ZArith Lia List Ascii String.
From Stdlib Require Import Floats DecimalString Sorted Permutation.
Import ListNotations.

Local Open Scope list_scope.
Local Open Scope string_scope.

(* ===================================================================== *)
(** ** Python built-ins *)
(* ===================================================================== *)

Module Py.

(** [str(n)] for a non-negative integer. *)
Definition str_of_nat (n : nat) : string :=
  NilEmpty.string_of_uint (Nat.to_uint n).

(** The characters [str.rstrip()] removes from a string of bytes: space,
    tab, newline, vertical tab, form feed and carriage return.  (On the
    text strings of Python 3 the method also removes the separators 28 to
    31 and the white space beyond ASCII; the statements below leave
    [rstrip] folded.) *)
Definition is_space (c : ascii) : bool :=
  let n := nat_of_ascii c in
  Nat.eqb n 32 || (Nat.leb 9 n && Nat.leb n 13).

Fixpoint dropwhile {A : Type} (p : A -> bool) (l : list A) : list A :=
  match l with
  | [] => []
  | x :: l' => if p x then dropwhile p l' else l
  end.

(** [line.rstrip()] *)
Definition rstrip (s : string) : string :=
  string_of_list_ascii
    (rev (dropwhile is_space (rev (list_ascii_of_string s)))).

(** [repr(s)] of a Python 2 [str]: the string between single quotes, or
    between double quotes when it has a single quote and no double one,
    with a backslash in front of the quote and of the backslash, and the
    characters that do not print written as escapes. *)
Definition dquote : ascii := ascii_of_nat 34.

Definition hex_digit (n : nat) : ascii :=
  match nth_error (list_ascii_of_string "0123456789abcdef") n with
  | Some c => c
  | None => "0"%char
  end.

Fixpoint has (c : ascii) (s : string) : bool :=
  match s with
  | EmptyString => false
  | String d s' => Ascii.eqb c d || has c s'
  end.

Definition repr_char (q c : ascii) : string :=
  let n := nat_of_ascii c in
  if Ascii.eqb c q || Ascii.eqb c "\"%char then String "\" (String c "")
  else if Nat.eqb n 9 then "\t"
  else if Nat.eqb n 10 then "\n"
  else if Nat.eqb n 13 then "\r"
  else if Nat.ltb n 32 || Nat.leb 127 n then
    String "\" (String "x" (String (hex_digit (n / 16))
                              (String (hex_digit (n mod 16)) "")))
  else String c "".

Fixpoint repr_chars (q : ascii) (s : string) : string :=
  match s with
  | EmptyString => ""
  | String c s' => repr_char q c ++ repr_chars q s'
  end.

Definition repr (s : string) : string :=
  let q := if has "'"%char s && negb (has dquote s) then dquote
           else "'"%char in
  String q (repr_chars q s ++ String q "").

(** [sep.join(l)] *)
Definition join (sep : string) (l : list string) : string :=
  String.concat sep l.

(** The order of [str] values: lexicographic on the character codes. *)
Definition str_le (a b : string) : Prop := String.leb a b = true.

(** The order [sorted] puts a list in: the order of the keys. *)
Definition key_le {A : Type} (key : A -> string) (x y : A) : Prop :=
  str_le (key x) (key y).

(** [sorted(l, key=key)]: Python's sort is stable, so it is determined by
    the order on the keys; it is written here as the insertion of each
    element, left to right, behind the elements whose key is not larger. *)
Fixpoint insert {A : Type} (key : A -> string) (x : A) (l : list A)
  : list A :=
  match l with
  | [] => [x]
  | y :: l' =>
      if String.ltb (key x) (key y) then x :: l else y :: insert key x l'
  end.

Definition sorted {A : Type} (key : A -> string) (l : list A) : list A :=
  fold_left (fun acc x => insert key x acc) l [].

End Py.

(* ===================================================================== *)
(** ** termcolor *)
(* ===================================================================== *)

Module Termcolor.

Inductive color := red | green.
Inductive attr := bold.

Definition COLORS (c : color) : nat :=
  match c with red => 31 | green => 32 end.

Definition ATTRIBUTES (a : attr) : nat :=
  match a with bold => 1 end.

Definition ESC : ascii := ascii_of_nat 27.

(** ['\033[%dm%s' % (code, text)] *)
Definition fmt_str (code : nat) (text : string) : string :=
  String ESC ("[" ++ Py.str_of_nat code ++ "m" ++ text).

Definition RESET : string := String ESC "[0m".

(** [colored(text, color, attrs=attrs)]: the colour code is put in front
    of the text, then one code per attribute, and the reset code ends
    it. *)
Definition colored (text : string) (c : option color) (attrs : list attr)
  : string :=
  let text := match c with
              | Some c => fmt_str (COLORS c) text
              | None => text
              end in
  fold_left (fun t a => fmt_str (ATTRIBUTES a) t) attrs text ++ RESET.

End Termcolor.

(* ===================================================================== *)
(** ** The [re] module

    [get_hosts] calls [re.compile] and the [match] method of the compiled
    pattern.  The fragment of the pattern syntax embedded here has literal
    characters, [.], a backslash in front of a punctuation character,
    groups, [|] and the repetitions [*], [+], [?] with their lazy forms.
    Character sets, counted repetitions, anchors, the [(?...)] extensions
    and the letter and digit escapes are outside of it: [compile] answers
    [Unsupported] for them, and nothing is proved about such a pattern.
    A character set that is never closed is told apart, since it is an
    error whatever it holds. *)
(* ===================================================================== *)

Module Re.

Inductive regex :=
| Empty                       (* matches no string *)
| Eps                         (* matches the empty string *)
| Chr (c : ascii)
| Dot                         (* any character but a newline *)
| Cat (r s : regex)
| Alt (r s : regex)
| Star (r : regex).

Definition newline : ascii := ascii_of_nat 10.

(** *** The strings a pattern stands for *)

Inductive matches : regex -> string -> Prop :=
| MEps : matches Eps ""
| MChr c : matches (Chr c) (String c "")
| MDot c : c <> newline -> matches Dot (String c "")
| MCat r s u v :
    matches r u -> matches s v -> matches (Cat r s) (u ++ v)
| MAltL r s u : matches r u -> matches (Alt r s) u
| MAltR r s u : matches s u -> matches (Alt r s) u
| MStarNil r : matches (Star r) ""
| MStarCons r u v :
    matches r u -> matches (Star r) v -> matches (Star r) (u ++ v).

(** *** Matching, by derivatives *)

Fixpoint nullable (r : regex) : bool :=
  match r with
  | Empty | Chr _ | Dot => false
  | Eps | Star _ => true
  | Cat r s => nullable r && nullable s
  | Alt r s => nullable r || nullable s
  end.

Fixpoint deriv (c : ascii) (r : regex) : regex :=
  match r with
  | Empty | Eps => Empty
  | Chr d => if Ascii.eqb c d then Eps else Empty
  | Dot => if Ascii.eqb c newline then Empty else Eps
  | Cat r s =>
      if nullable r then Alt (Cat (deriv c r) s) (deriv c s)
      else Cat (deriv c r) s
  | Alt r s => Alt (deriv c r) (deriv c s)
  | Star r => Cat (deriv c r) (Star r)
  end.

(** [rex.fullmatch(s)]: the whole of [s] is matched. *)
Fixpoint fullmatch (r : regex) (s : string) : bool :=
  match s with
  | EmptyString => nullable r
  | String c s' => fullmatch (deriv c r) s'
  end.

(** [rex.match(s)]: some part of [s] that starts at its first character
    is matched. *)
Fixpoint rmatch (r : regex) (s : string) : bool :=
  nullable r ||
  match s with
  | EmptyString => false
  | String c s' => rmatch (deriv c r) s'
  end.

(** [rex.search(s)]: some part of [s] is matched. *)
Fixpoint search (r : regex) (s : string) : bool :=
  rmatch r s ||
  match s with
  | EmptyString => false
  | String _ s' => search r s'
  end.

(** *** Compiling a pattern *)

Inductive compiled :=
| Compiled (r : regex)
| Invalid (msg : string)      (* [re.error] is raised *)
| Unsupported.                (* syntax outside the fragment *)

(** What the last item of the branch being read is: nothing yet, an item
    that may be repeated, a repetition (a [?] makes it lazy), or a lazy
    repetition. *)
Inductive last_item := Nothing | Item | Repeat | LazyRepeat.

(** A group being read: its finished branches and the items of the
    branch being read, both most recent first. *)
Record frame := mkFrame {
  branches : list regex;
  items : list regex;
  last : last_item
}.

Definition empty_frame : frame := mkFrame [] [] Nothing.

Definition seq_of (items : list regex) : regex :=
  match items with
  | [] => Eps
  | r :: rest => fold_left (fun acc x => Cat x acc) rest r
  end.

Definition alt_of (branches : list regex) : regex :=
  match branches with
  | [] => Empty
  | r :: rest => fold_left (fun acc x => Alt x acc) rest r
  end.

Definition close_frame (f : frame) : regex :=
  alt_of (seq_of (items f) :: branches f).

Definition push_item (r : regex) (f : frame) : frame :=
  mkFrame (branches f) (r :: items f) Item.

Inductive quantifier := QStar | QPlus | QOpt.

Definition apply_quantifier (q : quantifier) (r : regex) : regex :=
  match q with
  | QStar => Star r
  | QPlus => Cat r (Star r)
  | QOpt => Alt r Eps
  end.

Inductive mode :=
| Normal
| Escaped                     (* the last character was a backslash *)
| Opened.                     (* the last character opened a group *)

Record pstate := mkP { stack : list frame; top : frame; md : mode }.

Inductive step_result :=
| Next (st : pstate)
| OpenSet                     (* a character set begins *)
| Stop (c : compiled).

Definition is_alnum (c : ascii) : bool :=
  let n := nat_of_ascii c in
  (Nat.leb 48 n && Nat.leb n 57) || (Nat.leb 65 n && Nat.leb n 90)
  || (Nat.leb 97 n && Nat.leb n 122).

Fixpoint has_star (r : regex) : bool :=
  match r with
  | Star _ => true
  | Cat r s | Alt r s => has_star r || has_star s
  | _ => false
  end.

(** A repetition sign after an item [r].  Two cases depend on the version
    of the interpreter and are left outside of the fragment: the
    repetition of an item that can be empty and has a repetition inside
    (an error before Python 3.5), and a [+] after a repetition (an error
    before Python 3.11, a possessive repetition since). *)
Definition quantify (q : quantifier) (st : pstate) : step_result :=
  let f := top st in
  match last f, items f with
  | Item, r :: rest =>
      if nullable r && has_star r then Stop Unsupported
      else
        Next (mkP (stack st)
                  (mkFrame (branches f) (apply_quantifier q r :: rest) Repeat)
                  Normal)
  | Repeat, _ =>
      match q with
      | QOpt => Next (mkP (stack st)
                          (mkFrame (branches f) (items f) LazyRepeat)
                          Normal)
      | QPlus => Stop Unsupported
      | QStar => Stop (Invalid "multiple repeat")
      end
  | LazyRepeat, _ => Stop (Invalid "multiple repeat")
  | _, _ => Stop (Invalid "nothing to repeat")
  end.

Definition literal (c : ascii) (st : pstate) : step_result :=
  Next (mkP (stack st) (push_item (Chr c) (top st)) Normal).

Definition step (st : pstate) (c : ascii) : step_result :=
  match md st with
  | Escaped =>
      if is_alnum c then Stop Unsupported else literal c st
  | m =>
      match c with
      | "\"%char => Next (mkP (stack st) (top st) Escaped)
      | "("%char => Next (mkP (top st :: stack st) empty_frame Opened)
      | ")"%char =>
          match stack st with
          | [] => Stop (Invalid "unbalanced parenthesis")
          | f :: rest =>
              Next (mkP rest (push_item (close_frame (top st)) f) Normal)
          end
      | "|"%char =>
          let f := top st in
          Next (mkP (stack st)
                    (mkFrame (seq_of (items f) :: branches f) [] Nothing)
                    Normal)
      | "*"%char => quantify QStar st
      | "+"%char => quantify QPlus st
      | "?"%char =>
          match m with
          | Opened => Stop Unsupported
          | _ => quantify QOpt st
          end
      | "."%char => Next (mkP (stack st) (push_item Dot (top st)) Normal)
      | "["%char => OpenSet
      | "{"%char | "^"%char | "$"%char => Stop Unsupported
      | _ => literal c st
      end
  end.

(** Whether the character set being read ends in [s]: a []] ends it
    unless it is the first thing of the set, and a backslash takes the
    character after it with it. *)
Fixpoint set_closed (first escaped : bool) (s : string) : bool :=
  match s with
  | EmptyString => false
  | String c s' =>
      if escaped then set_closed false false s'
      else if Ascii.eqb c "\"%char then set_closed false true s'
      else if Ascii.eqb c "]"%char && negb first then true
      else set_closed false false s'
  end.

(** The same from the character after the [[]: a [^] there negates the
    set and is not part of it. *)
Definition closes_set (s : string) : bool :=
  match s with
  | String "^"%char s' => set_closed true false s'
  | _ => set_closed true false s
  end.

Fixpoint run (st : pstate) (s : string) : compiled :=
  match s with
  | EmptyString =>
      match md st, stack st with
      | Escaped, _ => Invalid "bad escape (end of pattern)"
      | _, [] => Compiled (close_frame (top st))
      | _, _ :: _ => Invalid "missing ), unterminated subpattern"
      end
  | String c s' =>
      match step st c with
      | Next st' => run st' s'
      | OpenSet =>
          if closes_set s' then Unsupported
          else Invalid "unterminated character set"
      | Stop r => r
      end
  end.

(** [re.compile(pattern)] *)
Definition compile (pattern : string) : compiled :=
  run (mkP [] empty_frame Normal) pattern.

End Re.

(* ===================================================================== *)
(** ** Exceptions and the remote session (paramiko) *)
(* ===================================================================== *)

Module Exn.

Inductive exc_class :=
| IOError
| SSHException
| BadHostKeyException
| AuthException
| ValueError
| AttributeError
| OtherError (name : string).

(** An exception object: its class, [str(e)], and its [message]
    attribute, which is [None] when the object has no such attribute
    (an access then raises [AttributeError]). *)
Record exc := mkExc {
  exc_cls : exc_class;
  exc_str : string;
  exc_message : option string
}.

Inductive result (A : Type) :=
| Ok (a : A)
| Raise (e : exc).
Arguments Ok {A} a.
Arguments Raise {A} e.

Definition is_IOError (e : exc) : bool :=
  match exc_cls e with IOError => true | _ => false end.

(** [except (BadHostKeyException, AuthException, SSHException)] *)
Definition is_ssh_error (e : exc) : bool :=
  match exc_cls e with
  | SSHException | BadHostKeyException | AuthException => true
  | _ => false
  end.

Definition attribute_error : exc :=
  mkExc AttributeError "object has no attribute 'message'" None.

(** [e.message] *)
Definition message (e : exc) : result string :=
  match exc_message e with
  | Some m => Ok m
  | None => Raise attribute_error
  end.

End Exn.

Module Session.
Import Exn.

(** An iterable of lines: it yields [lines] in order, and then either
    ends or raises [fault]. *)
Record stream := mkStream { lines : list string; fault : option exc }.

(** What [client.exec_command] gives back; the remote command's own exit
    status travels with the channel. *)
Record channel := mkChannel {
  stdout : stream;
  stderr : stream;
  exit_status : Z
}.

(** The remote end of one host: the outcome of each call a worker can
    make on its client. *)
Record server := mkServer {
  connect : string -> Z -> option string -> option exc;
  exec_command : string -> result channel;
  open_sftp : option exc;
  put : string -> string -> option exc
}.

(** The port entry of a host's configuration and [int(...)] of it. *)
Inductive port_entry :=
| NoPort
| Port (n : Z)
| BadPort (text : string).

(** [config.lookup(host)] *)
Record config := mkConfig {
  hostname : string;
  port : port_entry;
  user : option string
}.

(** [int(self.config.get('port', 22))] *)
Definition int_port (c : config) : result Z :=
  match port c with
  | NoPort => Ok 22%Z
  | Port n => Ok n
  | BadPort text =>
      Raise (mkExc ValueError
               ("invalid literal for int() with base 10: '" ++ text ++ "'")
               None)
  end.

End Session.

(* ===================================================================== *)
(** ** The worker: [Executor] and its subclasses *)
(* ===================================================================== *)

Module Worker.
Import Exn Session Termcolor.

(** The interpreter running the program.  The source imports no
    [print_function]: line 64, whose [print] is given two things, is the
    [print] statement on a tuple for Python 2 and a call with two
    arguments for Python 3. *)
Inductive python := Py2 | Py3.

(** The state a worker body acts on: its local [exitcode], the lines it
    has printed, and whether [client.close()] has run. *)
Record wstate := mkW {
  exitcode : Z;
  printed : list string;
  closed : bool
}.

Definition W (A : Type) : Type := wstate -> result A * wstate.

Definition ret {A} (a : A) : W A := fun s => (Ok a, s).

Definition bind {A B} (m : W A) (f : A -> W B) : W B :=
  fun s =>
    match m s with
    | (Ok a, s') => f a s'
    | (Raise e, s') => (Raise e, s')
    end.

Definition lift {A} (r : result A) : W A := fun s => (r, s).

Definition check (o : option exc) : W unit :=
  match o with
  | None => ret tt
  | Some e => lift (Raise e)
  end.

Local Notation "x <- m ;; k" := (bind m (fun x => k))
  (at level 61, m at next level, right associativity).
Local Notation "m ;; k" := (bind m (fun _ => k))
  (at level 61, right associativity).

Definition print (line : string) : W unit :=
  fun s => (Ok tt, mkW (exitcode s) (printed s ++ [line])%list (closed s)).

Definition assign_exitcode (n : Z) : W unit :=
  fun s => (Ok tt, mkW n (printed s) (closed s)).

Definition read_exitcode : W Z := fun s => (Ok (exitcode s), s).

(** [client.close()], when it returns *)
Definition close : W unit :=
  fun s => (Ok tt, mkW (exitcode s) (printed s) true).

(** [try: body except ...: handler]: [handler e] is [None] when no
    [except] clause catches [e]. *)
Definition try_except (body : W unit) (handler : exc -> option (W unit))
  : W unit :=
  fun s =>
    match body s with
    | (Ok a, s') => (Ok a, s')
    | (Raise e, s') =>
        match handler e with
        | Some h => h s'
        | None => (Raise e, s')
        end
    end.

(** [try: body finally: fin] where [fin] ends in a [return]: whatever
    [body] did, [fin] runs, and its own outcome is the outcome. *)
Definition try_finally_return {A} (body : W unit) (fin : W A) : W A :=
  fun s => fin (snd (body s)).

(** [for line in lines: body(line)] *)
Fixpoint for_lines (ls : list string) (body : string -> W unit) : W unit :=
  match ls with
  | [] => ret tt
  | l :: ls' => body l ;; for_lines ls' body
  end.

Definition for_stream (st : stream) (body : string -> W unit) : W unit :=
  for_lines (lines st) body ;; check (fault st).

(** The two subclasses of [Executor]. *)
Inductive operation :=
| SSHExecutor (cmd : string)
| CopyExecutor (source destination : string).

Record Executor := mkExecutor {
  host : string;
  config : Session.config;
  op : operation
}.

(** ["{0}: {1}".format(host, text)] *)
Definition prefixed (host text : string) : string := host ++ ": " ++ text.

(** [self.exec_command(client)]: the couple [(stdout, stderr)] of the
    triple it returns ([stdin] is never read). *)
Definition exec_command (self : Executor) (srv : server)
  : W (stream * stream) :=
  match op self with
  | SSHExecutor cmd =>
      ch <- lift (Session.exec_command srv cmd) ;;
      ret (stdout ch, stderr ch)
  | CopyExecutor source destination =>
      check (open_sftp srv) ;;
      check (put srv source destination) ;;
      ret (mkStream ["Copied to " ++ host self] None, mkStream [] None)
  end.

(** Line 64: [print(colored('{0}: {1}'.format(self.host, e.message)), 'red')].
    The colour is the second thing given to [print], not an argument of
    [colored]: Python 3 writes the two with a space between them, and
    Python 2 writes the [repr] of the tuple they make. *)
Definition print_line64 (py : python) (text : string) : W unit :=
  match py with
  | Py2 => print ("(" ++ Py.repr (colored text None []) ++ ", 'red')")
  | Py3 => print (colored text None [] ++ " red")
  end.

Definition handlers (py : python) (self : Executor) (e : exc)
  : option (W unit) :=
  if is_IOError e then
    Some (print (colored (prefixed (host self) (exc_str e)) (Some red) []) ;;
          assign_exitcode 1)
  else if is_ssh_error e then
    Some (m <- lift (message e) ;;
          print_line64 py (prefixed (host self) m) ;;
          assign_exitcode 1)
  else None.

Definition body (self : Executor) (srv : server) : W unit :=
  p <- lift (int_port (config self)) ;;
  check (connect srv (hostname (config self)) p (user (config self))) ;;
  streams <- exec_command self srv ;;
  for_stream (fst streams)
    (fun line => print (prefixed (host self) (Py.rstrip line))) ;;
  for_stream (snd streams)
    (fun line =>
       print (colored (prefixed (host self) (Py.rstrip line)) (Some red) []) ;;
       assign_exitcode 1).

Definition initial : wstate := mkW 0 [] false.

(** The lines the [stderr] loop of [body] is given: the worker gets to
    that loop when the port, the connection, the operation and the whole
    of [stdout] went through, and it is given no line otherwise. *)
Definition stderr_yielded (self : Executor) (srv : server) : list string :=
  match
    (p <- lift (int_port (config self)) ;;
     check (connect srv (hostname (config self)) p (user (config self))) ;;
     streams <- exec_command self srv ;;
     for_stream (fst streams) (fun _ => ret tt) ;;
     ret (lines (snd streams))) initial
  with
  | (Ok ls, _) => ls
  | (Raise _, _) => []
  end.

(** [Executor._exec], when the calls on the client outside of the session
    return: the three that make and set it up in front of the [try]
    statement, and [client.close()] in the [finally] clause.
    [_exec_closing] below leaves the outcome of the last one open. *)
Definition _exec (py : python) (self : Executor) (srv : server)
  : result Z * wstate :=
  (assign_exitcode 0 ;;
   try_finally_return
     (try_except (body self srv) (handlers py self))
     (close ;; read_exitcode)) initial.

(** [Executor.run]: the process exits with what [_exec] returned; an
    exception that left [_exec] would end the process with status 1. *)
Definition run (py : python) (self : Executor) (srv : server) : Z :=
  match fst (_exec py self srv) with
  | Ok n => n
  | Raise _ => 1%Z
  end.

(** [client.close()] when it may raise: [closing] is the exception it
    raises, if it raises one. *)
Definition close_or_raise (closing : option exc) : W unit :=
  match closing with
  | None => close
  | Some e => lift (Raise e)
  end.

(** [Executor._exec] with the outcome of [client.close()] left open.  The
    call stands in the [finally] clause in front of the [return]: an
    exception it raises takes the place of the one in flight, if there was
    one, the [return] is not reached, and the exception leaves [_exec]. *)
Definition _exec_closing (closing : option exc) (py : python)
  (self : Executor) (srv : server) : result Z * wstate :=
  (assign_exitcode 0 ;;
   try_finally_return
     (try_except (body self srv) (handlers py self))
     (close_or_raise closing ;; read_exitcode)) initial.

(** The exceptions an [except] clause of [_exec] reports: an [IOError],
    and a paramiko error that carries a [message]. *)
Definition reported (e : exc) : bool :=
  is_IOError e
  || (is_ssh_error e
      && match exc_message e with Some _ => true | None => false end).

End Worker.

(* ===================================================================== *)
(** ** The orchestrator: host selection, dispatch and report *)
(* ===================================================================== *)

Module Pypsh.
Import Exn Session Termcolor Worker.

(** What the main process does that can be observed: the lines it
    prints, and its calls on worker processes and on the clock. *)
Inductive event :=
| Print (line : string)
| Start (pid : nat) (host : string)   (* [process.start()] *)
| Join (pid : nat)                    (* [process.join()] has returned *)
| Sleep (seconds : float)             (* [sleep(seconds)] *)
| ActiveChildren (pids : list nat)    (* [multiprocessing.active_children()] *)
| KeyboardInterrupt                   (* raised inside the last [sleep] *)
| Terminate (pid : nat).              (* [p.stop()] *)

(** The argument of [sys.exit]. *)
Inductive exit_arg :=
| Status (n : Z)
| Message (text : string).

(** How a call in the main process ends. *)
Inductive outcome (A : Type) :=
| Returns (a : A)
| Exits (arg : exit_arg)      (* [SystemExit] *)
| Raises (e : exc)            (* an exception nothing catches *)
| NoModel                     (* a pattern outside the [Re] fragment *)
| OutOfFuel.                  (* the drain loop was cut short *)
Arguments Returns {A} a.
Arguments Exits {A} arg.
Arguments Raises {A} e.
Arguments NoModel {A}.
Arguments OutOfFuel {A}.

Definition P (A : Type) : Type := list event * outcome A.

Definition ret {A} (a : A) : P A := ([], Returns a).

Definition bind {A B} (m : P A) (f : A -> P B) : P B :=
  match m with
  | (t, Returns a) => let (t', o) := f a in ((t ++ t')%list, o)
  | (t, Exits arg) => (t, Exits arg)
  | (t, Raises e) => (t, Raises e)
  | (t, NoModel) => (t, NoModel)
  | (t, OutOfFuel) => (t, OutOfFuel)
  end.

Local Notation "x <- m ;; k" := (bind m (fun x => k))
  (at level 61, m at next level, right associativity).
Local Notation "m ;; k" := (bind m (fun _ => k))
  (at level 61, right associativity).

Definition emit (e : event) : P unit := ([e], Returns tt).
Definition print (line : string) : P unit := emit (Print line).
Definition sys_exit {A} (arg : exit_arg) : P A := ([], Exits arg).
Definition raise {A} (e : exc) : P A := ([], Raises e).

Definition lift {A} (r : result A) : P A :=
  match r with
  | Ok a => ret a
  | Raise e => raise e
  end.

(** [for x in l: body(x)] *)
Fixpoint for_each {A} (l : list A) (body : A -> P unit) : P unit :=
  match l with
  | [] => ret tt
  | x :: l' => body x ;; for_each l' body
  end.

(** The status with which the interpreter ends the process. *)
Definition exit_status {A} (o : outcome A) : option Z :=
  match o with
  | Returns _ => Some 0%Z
  | Exits (Status n) => Some n
  | Exits (Message _) => Some 1%Z
  | Raises _ => Some 1%Z
  | NoModel | OutOfFuel => None
  end.

(** A worker process as the main process sees it. *)
Record process := mkProcess {
  pid : nat;
  executor : Executor;
  alive : bool;
  exitcode : option Z
}.

(** [p.host] *)
Definition host (p : process) : string := Worker.host (executor p).

(** Everything outside the program that a run depends on. *)
Record world := mkWorld {
  python_version : python;
  (** [util.load_host_keys('~/.ssh/known_hosts')]: the host identifiers
      in the order of the file, or the exception raised. *)
  known_hosts : result (list string);
  (** [config.lookup(host)] on the parsed [~/.ssh/config]. *)
  ssh_config : string -> Session.config;
  (** The remote end of each host. *)
  servers : string -> server;
  (** [os.path.isfile] *)
  isfile : string -> bool;
  (** The number of polls of the drain loop that find worker [pid]
      still running. *)
  duration : nat -> nat;
  (** The poll after which the user's interrupt arrives, if it does. *)
  interrupt : option nat;
  (** Whether the status of a terminated worker has been collected when
      the report reads [exitcode]. *)
  reaped : nat -> bool
}.

Definition SIGTERM : Z := 15.

(** The worker has run to its end. *)
Definition finished (w : world) (p : process) : process :=
  mkProcess (pid p) (executor p) false
    (Some (Worker.run (python_version w) (executor p)
             (servers w (host p)))).

(** [p.stop()]: a worker that is still running is killed, and its
    [exitcode] is [-SIGTERM] once collected and [None] before. *)
Definition stop (w : world) (p : process) : process :=
  if alive p then
    mkProcess (pid p) (executor p) false
      (if reaped w (pid p) then Some (- SIGTERM)%Z else None)
  else p.

(** [get_hosts] *)
Definition get_hosts (w : world) (hostregex : string) : P (list string) :=
  keys <- match known_hosts w with
          | Ok keys => ret keys
          | Raise e =>
              if is_ssh_error e then
                print (colored "Error in ~/.ssh/known_hosts:" (Some red)
                         [bold]) ;;
                m <- lift (message e) ;;
                sys_exit (Message (colored m (Some red) []))
              else raise e
          end ;;
  rex <- match Re.compile hostregex with
         | Re.Compiled r => ret r
         | Re.Invalid _ =>
             sys_exit (Message (colored "Invalid regular expression!"
                                  (Some red) [bold]))
         | Re.Unsupported => ([], NoModel)
         end ;;
  let hosts := filter (Re.rmatch rex) keys in
  let match_success :=
    if Nat.ltb 0 (List.length hosts) then green else red in
  print (">>> "
         ++ colored (Py.str_of_nat (List.length hosts)) (Some match_success)
              [bold]
         ++ " Hosts matched:") ;;
  print "" ;;
  print (Py.join (String Re.newline "") (Py.sorted (fun h => h) hosts)) ;;
  print "" ;;
  ret hosts.

Definition is_ok (p : process) : bool :=
  match exitcode p with
  | Some n => Z.eqb n 0
  | None => false
  end.

(** [sum([1 for p in processes if p.exitcode == 0])] *)
Definition num_ok (processes : list process) : nat :=
  list_sum (map (fun _ => 1) (filter is_ok processes)).

(** [sorted([p for p in processes if p.exitcode != 0], key=lambda x: x.host)] *)
Definition failures (processes : list process) : list process :=
  Py.sorted host (filter (fun p => negb (is_ok p)) processes).

Definition tab : string := String (ascii_of_nat 9) "".

(** [print_result] *)
Definition print_result (processes : list process) : P unit :=
  print (">>> " ++ colored (Py.str_of_nat (num_ok processes)) (Some green) []
         ++ " successful invocations.") ;;
  print (">>> "
         ++ colored (Py.str_of_nat (List.length (failures processes))) (Some red)
              []
         ++ " failures:") ;;
  for_each (failures processes) (fun p => print (tab ++ host p)).

(** [interval > 0.0] *)
Definition throttled (interval : float) : bool :=
  PrimFloat.ltb 0%float interval.

(** The [for host in hosts] loop of [start_procs]; [processes] is the
    list built so far, and a worker's [pid] is its rank in it. *)
Fixpoint launch (w : world) (interval : float)
  (starter_func : string -> Session.config -> Executor) (hosts : list string)
  (processes : list process) : P (list process) :=
  match hosts with
  | [] => ret processes
  | h :: hosts' =>
      let process :=
        mkProcess (List.length processes) (starter_func h (ssh_config w h))
          true None in
      emit (Start (pid process) (host process)) ;;
      process <- (if throttled interval then
                    emit (Join (pid process)) ;;
                    emit (Sleep interval) ;;
                    ret (finished w process)
                  else ret process) ;;
      launch w interval starter_func hosts' (processes ++ [process])%list
  end.

(** [0.3], the double nearest to it. *)
Definition POLL : float := 0x1.3333333333333p-2%float.

(** The workers that have come to their end by poll [tick] have exited. *)
Definition settle (w : world) (tick : nat) (p : process) : process :=
  if alive p && Nat.leb (duration w (pid p)) tick then finished w p else p.

Definition active_children (processes : list process) : list nat :=
  map pid (filter alive processes).

(** The [while multiprocessing.active_children()] loop. *)
Fixpoint drain (w : world) (fuel tick : nat) (processes : list process)
  : P (list process) :=
  let processes := map (settle w tick) processes in
  let children := active_children processes in
  emit (ActiveChildren children) ;;
  match children with
  | [] => ret processes
  | _ :: _ =>
      match fuel with
      | 0 => ([], OutOfFuel)
      | S fuel' =>
          emit (Sleep POLL) ;;
          if match interrupt w with
             | Some t => Nat.eqb t tick
             | None => false
             end
          then
            emit KeyboardInterrupt ;;
            for_each processes (fun p => emit (Terminate (pid p))) ;;
            ret (map (stop w) processes)
          else drain w fuel' (S tick) processes
      end
  end.

(** The polls after which no worker of [processes] can be running. *)
Definition horizon (w : world) (processes : list process) : nat :=
  list_max (map (fun p => duration w (pid p)) processes).

(** [start_procs] from its third line on, when [sleep] returns: the
    configuration file its first two lines open and parse is
    [ssh_config w].  [Whole.start_procs] has these two lines as well, and
    a [sleep] that may raise. *)
Definition start_procs (w : world) (interval : float) (hosts : list string)
  (starter_func : string -> Session.config -> Executor) : P (list process) :=
  processes <- launch w interval starter_func hosts [] ;;
  drain w (horizon w processes) 0 processes.

(** [partial(SSHExecutor, cmd=cmd)] and [partial(CopyExecutor, ...)] *)
Definition ssh_executer (command : string) (h : string) (c : Session.config)
  : Executor := mkExecutor h c (SSHExecutor command).

Definition copy_executer (source destination : string) (h : string)
  (c : Session.config) : Executor :=
  mkExecutor h c (CopyExecutor source destination).

(** [cmd] *)
Definition cmd (w : world) (hosts : list string) (command : string)
  (interval : float) : P unit :=
  print ">>> Starting to execute the command(s):" ;;
  print "" ;;
  processes <- start_procs w interval hosts (ssh_executer command) ;;
  print_result processes.

(** [copy] *)
Definition copy (w : world) (source : string) (hosts : list string)
  (destination : string) (interval : float) : P unit :=
  if negb (isfile w source) then
    print (colored (">>> Source " ++ source ++ " does not exist") (Some red)
             []) ;;
    sys_exit (Status 1)
  else
    print ">>> Starting to copy the file:" ;;
    print "" ;;
    processes <- start_procs w interval hosts
                   (copy_executer source destination) ;;
    print_result processes.

(** The parsed command line. *)
Inductive subcommand :=
| CmdArgs (command : string)
| CopyArgs (source destination : string).

Record args := mkArgs {
  hostregex : string;
  interval : float;
  sub : subcommand
}.

(** [dispatch] *)
Definition dispatch (w : world) (a : args) : P unit :=
  hosts <- get_hosts w (hostregex a) ;;
  match sub a with
  | CmdArgs command => cmd w hosts command (interval a)
  | CopyArgs source destination =>
      copy w source hosts destination (interval a)
  end.

(** *** Vocabulary of the statements *)

(** The process the loop of [start_procs] records for host [h] as worker
    number [n]. *)
Definition launched (w : world) (interval : float)
  (starter_func : string -> Session.config -> Executor) (n : nat)
  (h : string) : process :=
  let process := mkProcess n (starter_func h (ssh_config w h)) true None in
  if throttled interval then finished w process else process.

Fixpoint launched_from (w : world) (interval : float)
  (starter_func : string -> Session.config -> Executor) (n : nat)
  (hosts : list string) : list process :=
  match hosts with
  | [] => []
  | h :: hosts' =>
      launched w interval starter_func n h
      :: launched_from w interval starter_func (S n) hosts'
  end.

(** What the main process does for one worker in that loop. *)
Definition launch_events (interval : float) (p : process) : list event :=
  Start (pid p) (host p)
  :: (if throttled interval then [Join (pid p); Sleep interval] else []).

Definition is_start (e : event) : bool :=
  match e with Start _ _ => true | _ => false end.

(** The events in which the main process waits for a worker. *)
Definition is_wait (e : event) : bool :=
  match e with
  | Join _ | Sleep _ | ActiveChildren _ => true
  | _ => false
  end.

(** How the drain loop leaves the process [p] it was given: as it was when
    [p] had exited before, run to its end, or killed after an interrupt. *)
Inductive ended (w : world) (tr : list event) (p : process)
  : process -> Prop :=
| EndedBefore : alive p = false -> ended w tr p p
| EndedRun : alive p = true -> ended w tr p (finished w p)
| EndedKilled :
    alive p = true -> In KeyboardInterrupt tr -> ended w tr p (stop w p).

(** The fatal errors of an invocation.  [fatal_error] tells which one an
    invocation meets first, if any; it answers [None] for a pattern
    outside of the [Re] fragment, of which nothing is said. *)
Inductive fatal :=
| StoreError (e : exc)
| PatternError
| LocalPreconditionError (source : string).

Definition fatal_error (w : world) (a : args) : option fatal :=
  match known_hosts w with
  | Raise e => Some (StoreError e)
  | Ok _ =>
      match Re.compile (hostregex a) with
      | Re.Invalid _ => Some PatternError
      | Re.Unsupported => None
      | Re.Compiled _ =>
          match sub a with
          | CopyArgs source _ =>
              if isfile w source then None
              else Some (LocalPreconditionError source)
          | CmdArgs _ => None
          end
      end
  end.


End Pypsh.

(* ===================================================================== *)
(** ** Sample runs *)
(* ===================================================================== *)

Module Sample.
Import Exn Session Termcolor Worker Pypsh.

Definition plain (h : string) : Session.config := mkConfig h NoPort None.

(** A host that answers every command with one line on each stream and
    whose command ends with status 0. *)
Definition noisy_channel : channel :=
  mkChannel (mkStream ["done"] None) (mkStream ["warning: low disk"] None) 0.

Definition noisy : server :=
  mkServer (fun _ _ _ => None) (fun _ => Ok noisy_channel) None
    (fun _ _ => None).

(** A host that answers quietly. *)
Definition quiet : server :=
  mkServer (fun _ _ _ => None)
    (fun _ => Ok (mkChannel (mkStream ["ok"] None) (mkStream [] None) 0))
    None (fun _ _ => None).

(** An authentication failure as Python 3 raises it: the exception has no
    [message] attribute. *)
Definition auth_failure : exc :=
  mkExc AuthException "Authentication failed." None.

Definition locked : server :=
  mkServer (fun _ _ _ => Some auth_failure) (fun _ => Ok noisy_channel) None
    (fun _ _ => None).

(** A host whose output cannot be decoded: reading [stdout] raises after
    one line, while [stderr] has a line to give. *)
Definition decode_error : exc :=
  mkExc (OtherError "UnicodeDecodeError")
    "'utf-8' codec can't decode byte 0xff in position 0: invalid start byte"
    None.

Definition garbled : server :=
  mkServer (fun _ _ _ => None)
    (fun _ => Ok (mkChannel (mkStream ["partial"] (Some decode_error))
                    (mkStream ["warning: low disk"] None) 0))
    None (fun _ _ => None).

(** A host that hangs up while its output is read. *)
Definition reset_by_peer : exc :=
  mkExc IOError "[Errno 104] Connection reset by peer" None.

Definition dropped : server :=
  mkServer (fun _ _ _ => None)
    (fun _ => Ok (mkChannel (mkStream ["partial"] (Some reset_by_peer))
                    (mkStream ["warning: low disk"] None) 0))
    None (fun _ _ => None).

(** What [sleep] raises for a length it cannot take. *)
Definition overflow : exc :=
  mkExc (OtherError "OverflowError")
    "timestamp too large to convert to C _PyTime_t" None.

(** The file that is not there. *)
Definition no_such_file (path : string) : exc :=
  mkExc IOError ("[Errno 2] No such file or directory: '" ++ path ++ "'")
    None.

Definition store : list string := ["web1"; "web2"; "db1"].

Definition world_of (srv : string -> server) : world :=
  mkWorld Py3 (Ok store) plain srv (fun _ => true) (fun n => S n) None
    (fun _ => true).

Definition ls_on (h : string) : Executor :=
  mkExecutor h (plain h) (SSHExecutor "ls").

Definition worker (h : string) : process := mkProcess 0 (ls_on h) true None.

End Sample.

(* ===================================================================== *)
(** ** The command line: [main] *)
(* ===================================================================== *)

Module Cli.
Import Exn Session Termcolor Worker Pypsh.

Local Notation "x <- m ;; k" := (Pypsh.bind m (fun x => k))
  (at level 61, m at next level, right associativity).
Local Notation "m ;; k" := (Pypsh.bind m (fun _ => k))
  (at level 61, right associativity).

(** The [while] loop of [main].  [stdin] lists what [readline] returns
    each time [select] reports the standard input as readable (the empty
    string at the end of the input); after the last of them [select]
    reports nothing to read. *)
Fixpoint interact (w : world) (hosts : list string) (stdin : list string)
  : P unit :=
  match stdin with
  | [] => Pypsh.ret tt
  | line :: stdin' =>
      if String.eqb line "" then sys_exit (Status 0)
      else cmd w hosts line 0%float ;; interact w hosts stdin'
  end.

(** [main].  [argv] is [sys.argv], and [parse_args] what
    [create_parser().parse_args()] does on it; both sub-commands of the
    parser set [func] to [dispatch]. *)
Definition main (w : world) (argv : list string) (stdin : list string)
  (parse_args : P args) : P unit :=
  match argv with
  | [_; pattern] =>
      hosts <- get_hosts w pattern ;;
      match hosts with
      | [] => Pypsh.ret tt
      | _ :: _ => interact w hosts stdin
      end
  | [_; pattern; command] =>
      hosts <- get_hosts w pattern ;;
      match hosts with
      | [] => Pypsh.ret tt
      | _ :: _ =>
          if String.eqb command "help" then Pypsh.ret tt
          else cmd w hosts command 0%float ;; sys_exit (Status 0)
      end
  | _ => Pypsh.ret tt
  end ;;
  a <- parse_args ;;
  dispatch w a.

End Cli.

(* ===================================================================== *)
(** ** The orchestrator from its first line

    [start_procs] begins by opening and parsing [~/.ssh/config], and its
    first loop sleeps for the interval it is given.  [Pypsh.start_procs]
    is the function from its third line on, with [ssh_config w] for the
    parsed file and a [sleep] that returns.  The functions are taken here
    with what these calls may do. *)
(* ===================================================================== *)

Module Whole.
Import Exn Session Termcolor Worker Pypsh.

Local Notation "x <- m ;; k" := (Pypsh.bind m (fun x => k))
  (at level 61, m at next level, right associativity).
Local Notation "m ;; k" := (Pypsh.bind m (fun _ => k))
  (at level 61, right associativity).

(** The machine the main process runs on. *)
Record setting := mkSetting {
  (** The exception [config.parse(open(...))] raises on [~/.ssh/config],
      if it raises one: the file may not be there. *)
  opening : option exc;
  (** The exception [sleep(interval)] raises, if it raises one: it does
      for a length it cannot take, an infinite one for instance. *)
  sleeping : float -> option exc
}.

(** The file is there and every sleep returns. *)
Definition ready : setting := mkSetting None (fun _ => None).

(** The [for host in hosts] loop of [start_procs]. *)
Fixpoint launch (m : setting) (w : world) (interval : float)
  (starter_func : string -> Session.config -> Executor) (hosts : list string)
  (processes : list process) : P (list process) :=
  match hosts with
  | [] => Pypsh.ret processes
  | h :: hosts' =>
      let process :=
        mkProcess (List.length processes) (starter_func h (ssh_config w h))
          true None in
      emit (Start (pid process) (host process)) ;;
      process <- (if throttled interval then
                    emit (Join (pid process)) ;;
                    match sleeping m interval with
                    | Some e => raise e
                    | None => emit (Sleep interval)
                    end ;;
                    Pypsh.ret (finished w process)
                  else Pypsh.ret process) ;;
      launch m w interval starter_func hosts' (processes ++ [process])%list
  end.

(** [start_procs]; nothing in it catches what its first two lines or the
    [sleep] of its first loop raise. *)
Definition start_procs (m : setting) (w : world) (interval : float)
  (hosts : list string) (starter_func : string -> Session.config -> Executor)
  : P (list process) :=
  match opening m with
  | Some e => raise e
  | None =>
      processes <- launch m w interval starter_func hosts [] ;;
      drain w (horizon w processes) 0 processes
  end.

(** [cmd] *)
Definition cmd (m : setting) (w : world) (hosts : list string)
  (command : string) (interval : float) : P unit :=
  print ">>> Starting to execute the command(s):" ;;
  print "" ;;
  processes <- start_procs m w interval hosts (ssh_executer command) ;;
  print_result processes.

(** [copy] *)
Definition copy (m : setting) (w : world) (source : string)
  (hosts : list string) (destination : string) (interval : float) : P unit :=
  if negb (isfile w source) then
    print (colored (">>> Source " ++ source ++ " does not exist") (Some red)
             []) ;;
    sys_exit (Status 1)
  else
    print ">>> Starting to copy the file:" ;;
    print "" ;;
    processes <- start_procs m w interval hosts
                   (copy_executer source destination) ;;
    print_result processes.

(** [dispatch] *)
Definition dispatch (m : setting) (w : world) (a : args) : P unit :=
  hosts <- get_hosts w (hostregex a) ;;
  match sub a with
  | CmdArgs command => cmd m w hosts command (interval a)
  | CopyArgs source destination =>
      copy m w source hosts destination (interval a)
  end.

(** The [while] loop of [main], as [Cli.interact]. *)
Fixpoint interact (m : setting) (w : world) (hosts : list string)
  (stdin : list string) : P unit :=
  match stdin with
  | [] => Pypsh.ret tt
  | line :: stdin' =>
      if String.eqb line "" then sys_exit (Status 0)
      else cmd m w hosts line 0%float ;; interact m w hosts stdin'
  end.

(** [main], as [Cli.main]. *)
Definition main (m : setting) (w : world) (argv : list string)
  (stdin : list string) (parse_args : P args) : P unit :=
  match argv with
  | [_; pattern] =>
      hosts <- get_hosts w pattern ;;
      match hosts with
      | [] => Pypsh.ret tt
      | _ :: _ => interact m w hosts stdin
      end
  | [_; pattern; command] =>
      hosts <- get_hosts w pattern ;;
      match hosts with
      | [] => Pypsh.ret tt
      | _ :: _ =>
          if String.eqb command "help" then Pypsh.ret tt
          else cmd m w hosts command 0%float ;; sys_exit (Status 0)
      end
  | _ => Pypsh.ret tt
  end ;;
  a <- parse_args ;;
  dispatch m w a.


End Whole.

(* ===================================================================== *)
(** ** Further vocabulary *)
(* ===================================================================== *)

Module Shape.
Import Exn Session Termcolor Worker Pypsh.

(** The lines a worker for [host] prints under Python 3: the host, a
    colon and a text, bare, in red, or the way line 64 of the source
    prints it. *)
Definition host_line (host line : string) : Prop :=
  exists text,
    line = prefixed host text
    \/ line = colored (prefixed host text) (Some red) []
    \/ line = (prefixed host text ++ RESET) ++ " red".

(** The line that line 64 prints under Python 2: a tuple. *)
Definition tuple_line (host line : string) : Prop :=
  exists text,
    line = "(" ++ Py.repr (prefixed host text ++ RESET) ++ ", 'red')".

(** The characters with a meaning of their own in a pattern. *)
Definition special (c : ascii) : bool :=
  existsb (Ascii.eqb c)
    ["\"; "("; ")"; "|"; "*"; "+"; "?"; "."; "["; "{"; "^"; "$"]%char.

(** A pattern made of ordinary characters only. *)
Fixpoint plain (s : string) : bool :=
  match s with
  | EmptyString => true
  | String c s' => negb (special c) && plain s'
  end.


(** The strings a sequence of patterns stands for, one after the other. *)
Fixpoint matches_seq (rs : list Re.regex) (u : string) : Prop :=
  match rs with
  | [] => u = ""
  | r :: rs' =>
      exists u1 u2, u = u1 ++ u2 /\ Re.matches r u1 /\ matches_seq rs' u2
  end.

(** The characters of a string, each as the pattern of that character. *)
Fixpoint chars (s : string) : list Re.regex :=
  match s with
  | EmptyString => []
  | String c s' => Re.Chr c :: chars s'
  end.

Definition is_sleep (e : event) : bool :=
  match e with Sleep _ => true | _ => false end.

Definition is_terminate (e : event) : bool :=
  match e with Terminate _ | KeyboardInterrupt => true | _ => false end.

End Shape.

(* ===================================================================== *)
(** * Properties *)
(* ===================================================================== *)

(** ** The order of strings and [sorted] *)

Section StringOrder.

Lemma ascii_compare_refl (a : ascii) : Ascii.compare a a = Eq.
Proof. unfold Ascii.compare. apply N.compare_refl. Qed.

Lemma ascii_compare_lt_trans (a b c : ascii) :
  Ascii.compare a b = Lt -> Ascii.compare b c = Lt ->
  Ascii.compare a c = Lt.
Proof.
  unfold Ascii.compare. rewrite !N.compare_lt_iff. lia.
Qed.

Lemma string_compare_refl (s : string) : String.compare s s = Eq.
Proof.
  induction s as [|a s IH]; simpl; [reflexivity|].
  now rewrite ascii_compare_refl.
Qed.

Lemma string_compare_lt_trans (s t u : string) :
  String.compare s t = Lt -> String.compare t u = Lt ->
  String.compare s u = Lt.
Proof.
  revert t u. induction s as [|a s IH]; intros [|b t] [|c u]; simpl;
    try congruence.
  destruct (Ascii.compare a b) eqn:Hab; try discriminate;
    destruct (Ascii.compare b c) eqn:Hbc; try discriminate; intros H1 H2.
  - apply Ascii.compare_eq_iff in Hab, Hbc. subst.
    rewrite ascii_compare_refl. eauto.
  - apply Ascii.compare_eq_iff in Hab. subst. now rewrite Hbc.
  - apply Ascii.compare_eq_iff in Hbc. subst. now rewrite Hab.
  - now rewrite (ascii_compare_lt_trans a b c).
Qed.

Lemma str_le_refl (s : string) : Py.str_le s s.
Proof.
  unfold Py.str_le, String.leb. now rewrite string_compare_refl.
Qed.

Lemma str_le_trans (s t u : string) :
  Py.str_le s t -> Py.str_le t u -> Py.str_le s u.
Proof.
  unfold Py.str_le, String.leb.
  destruct (String.compare s t) eqn:Hst; try discriminate;
    destruct (String.compare t u) eqn:Htu; try discriminate; intros _ _.
  - apply String.compare_eq_iff in Hst, Htu. subst.
    now rewrite string_compare_refl.
  - apply String.compare_eq_iff in Hst. subst. now rewrite Htu.
  - apply String.compare_eq_iff in Htu. subst. now rewrite Hst.
  - now rewrite (string_compare_lt_trans s t u).
Qed.

Lemma str_le_antisym (s t : string) :
  Py.str_le s t -> Py.str_le t s -> s = t.
Proof. unfold Py.str_le. apply String.leb_antisym. Qed.

Lemma ltb_false_le (s t : string) :
  String.ltb s t = false -> Py.str_le t s.
Proof.
  unfold Py.str_le, String.ltb, String.leb.
  rewrite (String.compare_antisym t s).
  destruct (String.compare s t); simpl; congruence.
Qed.

Lemma ltb_true_le (s t : string) :
  String.ltb s t = true -> Py.str_le s t.
Proof.
  unfold Py.str_le, String.ltb, String.leb.
  destruct (String.compare s t); congruence.
Qed.

End StringOrder.

Section Sorted.

Context {A : Type} (key : A -> string).

Lemma insert_perm (x : A) (l : list A) :
  Permutation (x :: l) (Py.insert key x l).
Proof.
  induction l as [|y l IH]; simpl; [reflexivity|].
  destruct (String.ltb (key x) (key y)); [reflexivity|].
  rewrite perm_swap. now constructor.
Qed.

Lemma insert_sorted (x : A) (l : list A) :
  StronglySorted (Py.key_le key) l -> StronglySorted (Py.key_le key) (Py.insert key x l).
Proof.
  induction 1 as [|y l Hs IH Hy]; simpl.
  - repeat constructor.
  - destruct (String.ltb (key x) (key y)) eqn:E.
    + constructor; [now constructor|].
      apply ltb_true_le in E. constructor; [exact E|].
      rewrite Forall_forall in *. intros z Hz.
      eapply str_le_trans; [exact E|]. now apply Hy.
    + constructor; [exact IH|].
      apply ltb_false_le in E.
      rewrite Forall_forall in *. intros z Hz.
      apply (Permutation_in _ (Permutation_sym (insert_perm x l))) in Hz.
      destruct Hz as [<-|Hz]; [exact E|now apply Hy].
Qed.

Lemma fold_insert_perm (l acc : list A) :
  Permutation (l ++ acc)%list
    (fold_left (fun acc x => Py.insert key x acc) l acc).
Proof.
  revert acc. induction l as [|x l IH]; intros acc; simpl; [reflexivity|].
  rewrite <- IH. rewrite <- insert_perm.
  apply Permutation_middle.
Qed.

Lemma fold_insert_sorted (l acc : list A) :
  StronglySorted (Py.key_le key) acc ->
  StronglySorted (Py.key_le key) (fold_left (fun acc x => Py.insert key x acc) l acc).
Proof.
  revert acc. induction l as [|x l IH]; intros acc H; simpl; [exact H|].
  apply IH. now apply insert_sorted.
Qed.

Lemma sorted_perm (l : list A) : Permutation l (Py.sorted key l).
Proof.
  unfold Py.sorted. rewrite <- fold_insert_perm. now rewrite app_nil_r.
Qed.

Lemma sorted_sorted (l : list A) : StronglySorted (Py.key_le key) (Py.sorted key l).
Proof. apply fold_insert_sorted. constructor. Qed.


Lemma sorted_keys_sorted (l : list A) :
  StronglySorted Py.str_le (map key (Py.sorted key l)).
Proof.
  generalize (sorted_sorted l).
  induction 1 as [|x m Hs IH Hx]; simpl; constructor; auto.
  rewrite Forall_forall in *. intros k Hk.
  apply in_map_iff in Hk. destruct Hk as [y [<- Hy]]. now apply Hx.
Qed.

End Sorted.

(** Two sorted lists of strings with the same elements are the same list. *)
Lemma sorted_strings_unique (l m : list string) :
  StronglySorted Py.str_le l -> StronglySorted Py.str_le m ->
  Permutation l m -> l = m.
Proof.
  intros Hl. revert m. induction Hl as [|x l Hl IH Hx]; intros m Hm Hp.
  - now apply Permutation_nil in Hp.
  - destruct Hm as [|y m Hm Hy].
    + symmetry in Hp. now apply Permutation_nil in Hp.
    + assert (x = y) as ->.
      { apply str_le_antisym.
        - assert (In y (x :: l)) as [->|Hin]
              by (apply (Permutation_in _ (Permutation_sym Hp)); now left).
          + apply str_le_refl.
          + rewrite Forall_forall in Hx. now apply Hx.
        - assert (In x (y :: m)) as [->|Hin]
              by (apply (Permutation_in _ Hp); now left).
          + apply str_le_refl.
          + rewrite Forall_forall in Hy. now apply Hy. }
      f_equal. apply IH; [exact Hm|]. now apply Permutation_cons_inv in Hp.
Qed.

(** The keys of a sorted list depend on the elements only, not on the
    order the list had. *)
Lemma sorted_keys_order_free {A : Type} (key : A -> string) (l m : list A) :
  Permutation l m ->
  map key (Py.sorted key l) = map key (Py.sorted key m).
Proof.
  intros Hp. apply sorted_strings_unique; try apply sorted_keys_sorted.
  apply Permutation_map.
  rewrite <- (sorted_perm key l), <- (sorted_perm key m). exact Hp.
Qed.

(** ** The matcher of [Re] against the strings a pattern stands for *)

Section Matcher.
Import Re.

Lemma append_eq_nil (s t : string) : s ++ t = "" -> s = "" /\ t = "".
Proof. destruct s; simpl; [auto|discriminate]. Qed.

Lemma cat_inv (r s : regex) (t : string) :
  matches (Cat r s) t ->
  exists u v, t = u ++ v /\ matches r u /\ matches s v.
Proof. intros H. inversion H; subst. eauto. Qed.

Lemma alt_inv (r s : regex) (t : string) :
  matches (Alt r s) t -> matches r t \/ matches s t.
Proof. intros H. inversion H; subst; auto. Qed.

Lemma nullable_spec (r : regex) : nullable r = true <-> matches r "".
Proof.
  induction r; simpl; split; intros H; try discriminate;
    try (now constructor); try (now inversion H).
  - apply andb_true_iff in H as [H1 H2].
    change "" with ("" ++ ""). constructor; [now apply IHr1|now apply IHr2].
  - apply cat_inv in H as (u & v & Heq & Hu & Hv). symmetry in Heq.
    apply append_eq_nil in Heq as [-> ->].
    apply andb_true_iff. split; [now apply IHr1|now apply IHr2].
  - apply orb_true_iff in H as [H|H];
      [apply MAltL; now apply IHr1|apply MAltR; now apply IHr2].
  - apply orb_true_iff.
    apply alt_inv in H as [H|H]; [left; now apply IHr1|right; now apply IHr2].
Qed.

(** A non-empty match of a repetition starts with a non-empty match of
    the repeated pattern. *)
Lemma star_cons_inv (r : regex) (c : ascii) (s : string) :
  matches (Star r) (String c s) ->
  exists u v, s = u ++ v /\ matches r (String c u) /\ matches (Star r) v.
Proof.
  intros H. remember (Star r) as q eqn:Hq. remember (String c s) as t eqn:Ht.
  revert s Ht. induction H as [| | | | | | |r0 u v Hu _ Hv IH];
    intros s0 Ht; try discriminate.
  injection Hq as ->.
  destruct u as [|a u]; simpl in Ht.
  - now apply IH.
  - injection Ht as -> <-. exists u, v. auto.
Qed.

Lemma cat_cons (r s : regex) (c : ascii) (u v : string) :
  matches r (String c u) -> matches s v ->
  matches (Cat r s) (String c (u ++ v)).
Proof.
  intros Hu Hv. change (String c (u ++ v)) with (String c u ++ v).
  now constructor.
Qed.

Lemma deriv_spec (c : ascii) (r : regex) (s : string) :
  matches (deriv c r) s <-> matches r (String c s).
Proof.
  revert s. induction r; intros s; simpl.
  - split; intros H; inversion H.
  - split; intros H; inversion H.
  - destruct (Ascii.eqb_spec c c0) as [->|Hne]; split; intros H;
      inversion H; subst; try constructor; congruence.
  - destruct (Ascii.eqb_spec c newline) as [->|Hne]; split; intros H;
      inversion H; subst; try (now constructor); congruence.
  - assert (Hcat : matches (Cat (deriv c r1) r2) s ->
                   matches (Cat r1 r2) (String c s)).
    { intros H. apply cat_inv in H as (u & v & -> & Hu & Hv).
      apply cat_cons; [now apply IHr1|assumption]. }
    assert (Hinv : matches (Cat r1 r2) (String c s) ->
                   (matches r1 "" /\ matches r2 (String c s)) \/
                   matches (Cat (deriv c r1) r2) s).
    { intros H. apply cat_inv in H as (u & v & Heq & Hu & Hv).
      destruct u as [|a u]; simpl in Heq.
      - left. subst. auto.
      - injection Heq as <- ->. right. constructor;
          [now apply IHr1|assumption]. }
    destruct (nullable r1) eqn:Hn; split; intros H.
    + apply alt_inv in H as [H|H]; [now apply Hcat|].
      change (String c s) with ("" ++ String c s).
      constructor; [now apply nullable_spec|now apply IHr2].
    + apply Hinv in H as [[_ H]|H];
        [apply MAltR; now apply IHr2|now apply MAltL].
    + now apply Hcat.
    + apply Hinv in H as [[H _]|H]; [|assumption].
      apply nullable_spec in H. congruence.
  - split; intros H; apply alt_inv in H as [H|H];
      solve [apply MAltL; now apply IHr1 | apply MAltR; now apply IHr2].
  - split; intros H.
    + apply cat_inv in H as (u & v & -> & Hu & Hv).
      change (String c (u ++ v)) with (String c u ++ v).
      constructor; [now apply IHr|assumption].
    + apply star_cons_inv in H as (u & v & -> & Hu & Hv).
      constructor; [now apply IHr|assumption].
Qed.

Lemma fullmatch_spec (r : regex) (s : string) :
  fullmatch r s = true <-> matches r s.
Proof.
  revert r. induction s as [|c s IH]; intros r; simpl.
  - apply nullable_spec.
  - rewrite IH. apply deriv_spec.
Qed.

(** [rmatch] answers whether the pattern matches a part of the string
    that starts at its beginning. *)
Lemma rmatch_spec (r : regex) (s : string) :
  rmatch r s = true <-> exists u v, s = u ++ v /\ matches r u.
Proof.
  revert r. induction s as [|c s IH]; intros r; simpl.
  - rewrite orb_false_r, nullable_spec. split.
    + intros H. exists "", "". auto.
    + intros (u & v & Heq & Hu). symmetry in Heq.
      apply append_eq_nil in Heq as [-> _]. exact Hu.
  - rewrite orb_true_iff, nullable_spec, IH. split.
    + intros [H|(u & v & -> & Hu)].
      * exists "", (String c s). auto.
      * exists (String c u), v. split; [reflexivity|].
        now apply deriv_spec.
    + intros (u & v & Heq & Hu). destruct u as [|a u]; simpl in Heq.
      * now left.
      * injection Heq as <- ->. right. exists u, v. split; [reflexivity|].
        now apply deriv_spec.
Qed.

End Matcher.

(** ** The worker body *)

Section WorkerBody.
Import Exn Session Termcolor Worker.

Lemma for_lines_print (f : string -> string) (ls : list string)
  (s : wstate) :
  for_lines ls (fun line => print (f line)) s
  = (Ok tt, mkW (exitcode s) (printed s ++ map f ls)%list (closed s)).
Proof.
  revert s. induction ls as [|l ls IH]; intros s; simpl.
  - unfold ret. rewrite app_nil_r. now destruct s.
  - unfold bind, print. rewrite IH. simpl. now rewrite <- app_assoc.
Qed.

Lemma for_lines_silent (ls : list string) (s : wstate) :
  for_lines ls (fun _ => ret tt) s = (Ok tt, s).
Proof. induction ls as [|l ls IH]; simpl; [reflexivity|exact IH]. Qed.

(** The [stderr] loop: every line is printed, and the exit code is 1 as
    soon as there is one. *)
Lemma for_lines_stderr (f : string -> string) (ls : list string)
  (s : wstate) :
  for_lines ls (fun line => bind (print (f line))
                              (fun _ => assign_exitcode 1)) s
  = (Ok tt, mkW (match ls with [] => exitcode s | _ :: _ => 1%Z end)
                (printed s ++ map f ls)%list (closed s)).
Proof.
  revert s. induction ls as [|l ls IH]; intros s; simpl.
  - unfold ret. rewrite app_nil_r. now destruct s.
  - unfold bind at 1. unfold bind at 1. unfold print, assign_exitcode.
    rewrite IH. simpl. rewrite <- app_assoc. now destruct ls.
Qed.

(** A handler never lowers an exit code of 1. *)
Lemma handlers_keep_failure (py : python) (self : Executor) (e : exc)
  (h : W unit) (s : wstate) :
  handlers py self e = Some h -> exitcode s = 1%Z ->
  exitcode (snd (h s)) = 1%Z.
Proof.
  unfold handlers. intros Hh Hs.
  destruct (is_IOError e); [injection Hh as <-; reflexivity|].
  destruct (is_ssh_error e); [injection Hh as <-|discriminate].
  unfold bind, lift, message.
  destruct (exc_message e); simpl; [|exact Hs]. now destruct py.
Qed.

(** [_exec] returns, and returns the value its local [exitcode] has when
    the [try] statement is left, whichever way it is left. *)
Lemma exec_returns (py : python) (self : Executor) (srv : server) :
  _exec py self srv
  = let s := snd (try_except (body self srv) (handlers py self) initial) in
    (Ok (exitcode s), mkW (exitcode s) (printed s) true).
Proof. reflexivity. Qed.

Lemma exec_after_stderr (py : python) (self : Executor) (srv : server) :
  stderr_yielded self srv <> [] -> fst (_exec py self srv) = Ok 1%Z.
Proof.
  intros H. rewrite exec_returns. simpl. f_equal.
  unfold stderr_yielded, try_except, body in *. unfold bind in *.
  destruct (lift (int_port (config self)) initial) as [[p|e] s0] eqn:E0;
    [|now elim H].
  destruct (check _ s0) as [[[]|e] s1] eqn:E1; [|now elim H].
  destruct (exec_command self srv s1) as [[[out err]|e] s2] eqn:E2;
    [|now elim H]. simpl fst in *. simpl snd in *.
  unfold for_stream in *. unfold bind in *.
  rewrite for_lines_silent in H. rewrite for_lines_print.
  destruct (fault out) as [e|]; simpl in H; [now elim H|].
  simpl check. unfold ret at 1.
  rewrite (for_lines_stderr
             (fun line => colored (prefixed (host self) (Py.rstrip line))
                            (Some red) [])).
  destruct (lines err) as [|l ls]; [now elim H|].
  destruct (fault err) as [e|]; simpl; [|reflexivity].
  destruct (handlers py self e) as [h|] eqn:Hh; [|reflexivity].
  now apply (handlers_keep_failure py self e h).
Qed.

Lemma exec_command_state (self : Executor) (srv : server) (s : wstate) :
  snd (Worker.exec_command self srv s) = s.
Proof.
  unfold Worker.exec_command, Worker.bind, Worker.lift, check, Worker.ret.
  destruct (op self) as [c|src dst].
  - now destruct (Session.exec_command srv c).
  - destruct (open_sftp srv); [reflexivity|].
    now destruct (put srv src dst).
Qed.

(** What an [except] clause does to the state it starts from: it adds
    its line and sets the exit code to 1, or it raises before either and
    leaves the state as it was. *)
Lemma handler_run (py : python) (self : Executor) (e : exc) (h : W unit)
  (s : wstate) :
  handlers py self e = Some h ->
  (exists line, h s = (Ok tt, mkW 1 (printed s ++ [line])%list (closed s)))
  \/ (reported e = false /\ h s = (Raise attribute_error, s)).
Proof.
  unfold handlers, reported. intros H.
  destruct (is_IOError e).
  - injection H as <-. left. eexists. reflexivity.
  - destruct (is_ssh_error e); [injection H as <-|discriminate].
    unfold Worker.bind, Worker.lift, message.
    destruct (exc_message e) as [m|].
    + left. destruct py; eexists; reflexivity.
    + right. split; reflexivity.
Qed.

(** An exception the clauses report is caught. *)
Lemma reported_handled (py : python) (self : Executor) (e : exc) :
  reported e = true -> exists h, handlers py self e = Some h.
Proof.
  unfold reported, handlers. destruct (is_IOError e); [eauto|].
  destruct (is_ssh_error e); [eauto|discriminate].
Qed.

(** The lines the [stderr] loop is given when the worker gets to it. *)
Lemma stderr_reached (self : Executor) (srv : server) (p : Z)
  (out err : stream) :
  int_port (config self) = Ok p ->
  connect srv (hostname (config self)) p (user (config self)) = None ->
  fst (Worker.exec_command self srv initial) = Ok (out, err) ->
  fault out = None ->
  stderr_yielded self srv = lines err.
Proof.
  intros Hp Hc He Ho. unfold stderr_yielded.
  unfold Worker.bind at 1. unfold Worker.lift at 1. rewrite Hp.
  unfold Worker.bind at 1. rewrite Hc. simpl check. unfold Worker.ret at 1.
  unfold Worker.bind at 1.
  pose proof (exec_command_state self srv initial) as Hs.
  destruct (Worker.exec_command self srv initial) as [r s'].
  simpl in He, Hs. subst r s'. cbn [fst snd].
  unfold for_stream, Worker.bind. rewrite for_lines_silent, Ho. reflexivity.
Qed.

(** The state in which reading [stdout] fails. *)
Lemma stdout_fault (self : Executor) (srv : server) (p : Z)
  (out err : stream) (e : exc) :
  int_port (config self) = Ok p ->
  connect srv (hostname (config self)) p (user (config self)) = None ->
  fst (Worker.exec_command self srv initial) = Ok (out, err) ->
  fault out = Some e ->
  body self srv initial
  = (Raise e,
     mkW 0 (map (fun l => prefixed (Worker.host self) (Py.rstrip l))
              (lines out)) false).
Proof.
  intros Hp Hc He Ho. unfold body.
  unfold Worker.bind at 1. unfold Worker.lift at 1. rewrite Hp.
  unfold Worker.bind at 1. rewrite Hc. simpl check. unfold Worker.ret at 1.
  unfold Worker.bind at 1.
  pose proof (exec_command_state self srv initial) as Hs.
  destruct (Worker.exec_command self srv initial) as [r s'].
  simpl in He, Hs. subst r s'. cbn [fst snd].
  unfold Worker.bind at 1. unfold for_stream at 1. unfold Worker.bind at 1.
  rewrite for_lines_print, Ho. reflexivity.
Qed.

(** With [client.close()] returning, [_exec_closing] is [_exec]. *)
Lemma exec_closing_returns (py : python) (self : Executor) (srv : server) :
  _exec_closing None py self srv = _exec py self srv.
Proof. reflexivity. Qed.

End WorkerBody.

(** ** The orchestrator *)

Section Orchestrator.
Import Exn Session Termcolor Worker Pypsh.

Variable w : world.

Local Arguments Pypsh.bind : simpl never.
Local Arguments Pypsh.emit : simpl never.

Lemma bind_returns {A B : Type} (t : list event) (a : A) (f : A -> P B) :
  Pypsh.bind (t, Returns a) f = ((t ++ fst (f a))%list, snd (f a)).
Proof. unfold Pypsh.bind. now destruct (f a). Qed.

Lemma for_each_emit {A : Type} (l : list A) (ev : A -> event) :
  for_each l (fun x => emit (ev x)) = (map ev l, Returns tt).
Proof.
  induction l as [|x l IH]; [reflexivity|].
  simpl for_each. unfold emit at 1. rewrite bind_returns, IH. reflexivity.
Qed.

Lemma launched_pid (interval : float) f (n : nat) (h : string) :
  pid (launched w interval f n h) = n.
Proof. unfold launched. now destruct (throttled interval). Qed.

Lemma launched_executor (interval : float) f (n : nat) (h : string) :
  executor (launched w interval f n h) = f h (ssh_config w h).
Proof. unfold launched. now destruct (throttled interval). Qed.

Lemma launch_cons (interval : float) f (h : string) (hosts : list string)
  (processes : list process) :
  launch w interval f (h :: hosts) processes
  = Pypsh.bind
      (launch_events interval
         (launched w interval f (List.length processes) h),
       Returns (launched w interval f (List.length processes) h))
      (fun process =>
         launch w interval f hosts (processes ++ [process])%list).
Proof.
  simpl launch. unfold launch_events, launched.
  destruct (throttled interval);
    cbv beta iota zeta delta [Pypsh.bind emit Pypsh.ret];
    destruct (launch w interval f hosts _); reflexivity.
Qed.

(** The loop of [start_procs] records one process per host, in the order
    of the hosts, and does for each what [launch_events] says. *)
Lemma launch_spec (interval : float) f (hosts : list string)
  (processes : list process) :
  launch w interval f hosts processes
  = (flat_map (launch_events interval)
       (launched_from w interval f (List.length processes) hosts),
     Returns (processes
              ++ launched_from w interval f (List.length processes) hosts)%list).
Proof.
  revert processes. induction hosts as [|h hosts IH]; intros processes.
  - simpl. now rewrite app_nil_r.
  - rewrite launch_cons, bind_returns, IH, length_app, Nat.add_1_r.
    rewrite <- app_assoc. reflexivity.
Qed.

Lemma launched_from_length (interval : float) f (n : nat)
  (hosts : list string) :
  List.length (launched_from w interval f n hosts) = List.length hosts.
Proof.
  revert n. induction hosts as [|h hosts IH]; intros n; simpl; auto.
Qed.

Lemma launched_from_executors (interval : float) f (n : nat)
  (hosts : list string) :
  map executor (launched_from w interval f n hosts)
  = map (fun h => f h (ssh_config w h)) hosts.
Proof.
  revert n. induction hosts as [|h hosts IH]; intros n; simpl; [reflexivity|].
  now rewrite launched_executor, IH.
Qed.

Lemma launched_from_pids (interval : float) f (n : nat)
  (hosts : list string) :
  map pid (launched_from w interval f n hosts) = seq n (List.length hosts).
Proof.
  revert n. induction hosts as [|h hosts IH]; intros n; simpl; [reflexivity|].
  now rewrite launched_pid, IH.
Qed.

(** In throttled mode every recorded worker has exited; otherwise every
    one is running. *)
Lemma launched_from_alive (interval : float) f (n : nat)
  (hosts : list string) (p : process) :
  In p (launched_from w interval f n hosts) ->
  alive p = negb (throttled interval).
Proof.
  revert n. induction hosts as [|h hosts IH]; intros n; simpl; [tauto|].
  intros [<-|H]; [|now apply (IH (S n))].
  unfold launched. now destruct (throttled interval).
Qed.

Lemma settle_pid (tick : nat) (p : process) : pid (settle w tick p) = pid p.
Proof. unfold settle. now destruct (alive p && _). Qed.

Lemma horizon_settle (tick : nat) (processes : list process) :
  horizon w (map (settle w tick) processes) = horizon w processes.
Proof.
  unfold horizon. rewrite map_map. f_equal. apply map_ext.
  intros p. now rewrite settle_pid.
Qed.

Lemma horizon_bound (processes : list process) (p : process) :
  In p processes -> duration w (pid p) <= horizon w processes.
Proof.
  intros H. unfold horizon.
  assert (Hle := proj1 (list_max_le
                          (map (fun p => duration w (pid p)) processes)
                          (list_max (map (fun p => duration w (pid p))
                                       processes)))
                   (Nat.le_refl _)).
  rewrite Forall_forall in Hle. apply Hle.
  apply in_map_iff. now exists p.
Qed.

Lemma active_children_nil (processes : list process) :
  active_children processes = [] ->
  forall p, In p processes -> alive p = false.
Proof.
  unfold active_children. intros H p Hp.
  destruct (alive p) eqn:E; [|reflexivity].
  assert (In (pid p) (map pid (filter alive processes))) as Hin
      by (apply in_map, filter_In; auto).
  rewrite H in Hin. destruct Hin.
Qed.

Lemma active_children_cons (processes : list process) (k : nat)
  (ks : list nat) :
  active_children processes = k :: ks ->
  exists p, In p processes /\ alive p = true.
Proof.
  unfold active_children. intros H.
  destruct (filter alive processes) as [|p ps] eqn:E; [discriminate|].
  exists p. apply filter_In. rewrite E. now left.
Qed.

Lemma ended_settle (tr : list event) (tick : nat) (p q : process) :
  ended w tr (settle w tick p) q -> ended w tr p q.
Proof.
  unfold settle. destruct (alive p && _) eqn:E; [|auto].
  apply andb_true_iff in E as [E _].
  intros H. inversion H as [Ha| |]; subst; try discriminate.
  now constructor.
Qed.

Lemma ended_more (tr tr' : list event) (p q : process) :
  incl tr tr' -> ended w tr p q -> ended w tr' p q.
Proof.
  intros Hi H. destruct H; [now constructor|now constructor|].
  constructor 3; auto.
Qed.

(** With fuel up to the horizon the drain loop returns; it handles each
    process on its own, and starts and joins none. *)
Lemma drain_spec (fuel tick : nat) (processes : list process) :
  horizon w processes <= fuel + tick ->
  exists tr g,
    drain w fuel tick processes = (tr, Returns (map g processes))
    /\ (forall p, In p processes -> ended w tr p (g p))
    /\ (forall e, In e tr -> is_start e = false)
    /\ (forall k, ~ In (Join k) tr)
    /\ exists children rest, tr = ActiveChildren children :: rest.
Proof.
  revert tick processes. induction fuel as [|fuel IH]; intros tick processes Hh;
    simpl drain; unfold emit at 1; rewrite bind_returns;
    destruct (active_children (map (settle w tick) processes))
      as [|k ks] eqn:Hc.
  1, 3:
    exists [ActiveChildren []], (settle w tick); simpl; split; [reflexivity|];
    (split; [|split; [|split]]);
    [ intros p Hp; apply ended_settle with (tick := tick); constructor;
      apply (active_children_nil _ Hc); now apply in_map
    | intros e [<-|[]]; reflexivity
    | intros j [H|[]]; discriminate
    | eauto ].
  - exfalso. apply active_children_cons in Hc as (p1 & Hin & Ha).
    apply in_map_iff in Hin as (p & <- & Hp).
    unfold settle in Ha. destruct (alive p && _) eqn:E; [discriminate|].
    rewrite Ha in E. simpl in E. apply Nat.leb_gt in E.
    pose proof (horizon_bound processes p Hp). lia.
  - unfold emit at 1. rewrite bind_returns.
    destruct (match interrupt w with
              | Some t => Nat.eqb t tick
              | None => false
              end) eqn:Hi.
    + unfold emit at 1. rewrite bind_returns.
      rewrite for_each_emit. rewrite bind_returns. simpl.
      exists (ActiveChildren (k :: ks) :: Sleep POLL :: KeyboardInterrupt
              :: map (fun p => Terminate (pid p))
                   (map (settle w tick) processes) ++ [])%list,
             (fun p => stop w (settle w tick p)).
      split; [f_equal; f_equal; apply map_map|]. split; [|split; [|split]].
      * intros p Hp. apply ended_settle with (tick := tick).
        destruct (alive (settle w tick p)) eqn:Ea.
        -- apply (EndedKilled w _ _ Ea). simpl. auto.
        -- replace (stop w (settle w tick p)) with (settle w tick p)
             by (unfold stop; now rewrite Ea).
           now constructor.
      * intros e [<-|[<-|[<-|He]]]; try reflexivity.
        rewrite app_nil_r in He. apply in_map_iff in He as (q & <- & _).
        reflexivity.
      * intros j [H|[H|[H|H]]]; try discriminate.
        rewrite app_nil_r in H. apply in_map_iff in H as (q & H & _).
        discriminate.
      * eauto.
    + destruct (IH (S tick) (map (settle w tick) processes))
        as (tr & g & Hd & Hg & Hs & Hj & _).
      { rewrite horizon_settle. lia. }
      rewrite Hd. simpl.
      exists (ActiveChildren (k :: ks) :: Sleep POLL :: tr),
             (fun p => g (settle w tick p)).
      split; [f_equal; f_equal; apply map_map|]. split; [|split; [|split]].
      * intros p Hp. apply ended_settle with (tick := tick).
        apply (ended_more tr); [intros e He; simpl; auto|].
        apply Hg. now apply in_map.
      * intros e [<-|[<-|He]]; try reflexivity. now apply Hs.
      * intros j [H|[H|H]]; try discriminate. now apply (Hj j).
      * eauto.
Qed.

End Orchestrator.

(** ** The configuration file *)

Section Opening.
Import Exn Session Termcolor Worker Pypsh.

Lemma bind_ext {A B : Type} (m : P A) (f g : A -> P B) :
  (forall a, f a = g a) -> Pypsh.bind m f = Pypsh.bind m g.
Proof.
  intros H. destruct m as [t [a| | | |]]; simpl; try reflexivity.
  now rewrite H.
Qed.

Local Arguments Pypsh.bind : simpl never.
Local Arguments Pypsh.emit : simpl never.

(** When no sleep is asked for, or the sleep asked for returns, the loop
    is the one of [Pypsh.launch]. *)
Lemma whole_launch (m : Whole.setting) (w : world) (interval : float) f
  (hosts : list string) (processes : list process) :
  (throttled interval = true -> Whole.sleeping m interval = None) ->
  Whole.launch m w interval f hosts processes
  = launch w interval f hosts processes.
Proof.
  intros Hs. revert processes.
  induction hosts as [|h hosts IH]; intros processes; [reflexivity|].
  simpl. destruct (throttled interval).
  - rewrite (Hs eq_refl). apply bind_ext. intros _. apply bind_ext.
    intros p. apply IH.
  - apply bind_ext. intros _. apply bind_ext. intros p. apply IH.
Qed.

(** When moreover the file is opened and parsed, the functions are what
    they are from the third line of [start_procs] on. *)
Lemma whole_start_procs (m : Whole.setting) (w : world) (interval : float)
  (hosts : list string) f :
  Whole.opening m = None ->
  (throttled interval = true -> Whole.sleeping m interval = None) ->
  Whole.start_procs m w interval hosts f = start_procs w interval hosts f.
Proof.
  intros Ho Hs. unfold Whole.start_procs, start_procs.
  now rewrite Ho, whole_launch.
Qed.

Lemma whole_cmd (m : Whole.setting) (w : world) (hosts : list string)
  (command : string) (interval : float) :
  Whole.opening m = None ->
  (throttled interval = true -> Whole.sleeping m interval = None) ->
  Whole.cmd m w hosts command interval = cmd w hosts command interval.
Proof.
  intros Ho Hs. unfold Whole.cmd, cmd. now rewrite whole_start_procs.
Qed.

Lemma whole_copy (m : Whole.setting) (w : world) (source : string)
  (hosts : list string) (destination : string) (interval : float) :
  Whole.opening m = None ->
  (throttled interval = true -> Whole.sleeping m interval = None) ->
  Whole.copy m w source hosts destination interval
  = copy w source hosts destination interval.
Proof.
  intros Ho Hs. unfold Whole.copy, copy. now rewrite whole_start_procs.
Qed.

Lemma whole_dispatch (m : Whole.setting) (w : world) (a : args) :
  Whole.opening m = None ->
  (throttled (interval a) = true -> Whole.sleeping m (interval a) = None) ->
  Whole.dispatch m w a = dispatch w a.
Proof.
  intros Ho Hs. unfold Whole.dispatch, dispatch. apply bind_ext.
  intros hosts. destruct (sub a); [now apply whole_cmd|now apply whole_copy].
Qed.

(** The short forms of [main] ask for no sleep between the hosts. *)
Lemma whole_cmd_at_once (m : Whole.setting) (w : world)
  (hosts : list string) (command : string) :
  Whole.opening m = None ->
  Whole.cmd m w hosts command 0%float = cmd w hosts command 0%float.
Proof. intros Ho. apply whole_cmd; [exact Ho|discriminate]. Qed.

Lemma whole_interact (m : Whole.setting) (w : world) (hosts : list string)
  (stdin : list string) :
  Whole.opening m = None ->
  Whole.interact m w hosts stdin = Cli.interact w hosts stdin.
Proof.
  intros Ho. induction stdin as [|line stdin IH]; [reflexivity|]. simpl.
  destruct (String.eqb line ""); [reflexivity|].
  rewrite (whole_cmd_at_once m w hosts line Ho). apply bind_ext.
  intros _. exact IH.
Qed.

(** X20. When [~/.ssh/config] cannot be opened, [start_procs] raises at
    once, and [cmd] and [copy] after their first two lines: the exception
    leaves them, no worker is started and no report is printed. *)
Theorem missing_config_stops_the_run (m : Whole.setting) (e : exc)
  (w : world) (hosts : list string) (interval : float) :
  Whole.opening m = Some e ->
  (forall f, Whole.start_procs m w interval hosts f = ([], Raises e))
  /\ (forall command,
        Whole.cmd m w hosts command interval
        = ([Print ">>> Starting to execute the command(s):"; Print ""],
           Raises e))
  /\ (forall source destination,
        isfile w source = true ->
        Whole.copy m w source hosts destination interval
        = ([Print ">>> Starting to copy the file:"; Print ""], Raises e)).
Proof.
  intros Ho. unfold Whole.copy, Whole.cmd, Whole.start_procs. rewrite Ho.
  split; [reflexivity|]. split; [reflexivity|].
  intros source destination ->. reflexivity.
Qed.

Lemma missing_config_stops_the_run_witness :
  Whole.cmd
    (Whole.mkSetting (Some (Sample.no_such_file "/home/admin/.ssh/config"))
       (fun _ => None))
    (Sample.world_of (fun _ => Sample.quiet)) ["web1"; "web2"] "ls" 0%float
  = ([Print ">>> Starting to execute the command(s):"; Print ""],
     Raises (Sample.no_such_file "/home/admin/.ssh/config")).
Proof.
  destruct (missing_config_stops_the_run
              (Whole.mkSetting
                 (Some (Sample.no_such_file "/home/admin/.ssh/config"))
                 (fun _ => None))
              (Sample.no_such_file "/home/admin/.ssh/config")
              (Sample.world_of (fun _ => Sample.quiet)) ["web1"; "web2"]
              0%float eq_refl) as (_ & H & _).
  exact (H "ls").
Defined.

(** X21. With throttling, when the sleep after the first worker raises,
    [start_procs] has started that worker and waited for its end, and the
    exception leaves it: no other host is served. *)
Theorem failed_sleep_stops_the_launch (m : Whole.setting) (e : exc)
  (w : world) (interval : float) (h : string) (hosts : list string) f :
  Whole.opening m = None -> throttled interval = true ->
  Whole.sleeping m interval = Some e ->
  Whole.start_procs m w interval (h :: hosts) f
  = ([Start 0 (Worker.host (f h (ssh_config w h))); Join 0], Raises e).
Proof.
  intros Ho Ht Hs. unfold Whole.start_procs. rewrite Ho.
  cbn [Whole.launch]. rewrite Ht, Hs. reflexivity.
Qed.

Lemma failed_sleep_stops_the_launch_witness :
  throttled infinity = true
  /\ Whole.start_procs (Whole.mkSetting None (fun _ => Some Sample.overflow))
       (Sample.world_of (fun _ => Sample.quiet)) infinity
       ["web1"; "web2"] (ssh_executer "ls")
     = ([Start 0 "web1"; Join 0], Raises Sample.overflow).
Proof.
  split; [reflexivity|].
  exact (failed_sleep_stops_the_launch
           (Whole.mkSetting None (fun _ => Some Sample.overflow))
           Sample.overflow (Sample.world_of (fun _ => Sample.quiet)) infinity
           "web1" ["web2"] (ssh_executer "ls") eq_refl eq_refl eq_refl).
Defined.



End Opening.

(** ** The worker's result *)

Section WorkerResult.
Import Exn Session Termcolor Worker Pypsh.

(** C1, as the specification words it, at an input where it fails.  The
    remote command writes a line on [stderr], but reading [stdout] raises
    an exception that no [except] clause names: the [stderr] loop is never
    run, the [return] of the [finally] clause discards the exception, and
    the worker ends with exit code 0 and is counted as a success. *)
Lemma stderr_output_can_be_lost :
  fst (Worker.exec_command (Sample.ls_on "web1") Sample.garbled initial)
  = Ok (mkStream ["partial"] (Some Sample.decode_error),
        mkStream ["warning: low disk"] None)
  /\ _exec Py3 (Sample.ls_on "web1") Sample.garbled
     = (Ok 0%Z, mkW 0 ["web1: partial"] true)
  /\ exitcode (finished (Sample.world_of (fun _ => Sample.garbled))
                 (Sample.worker "web1")) = Some 0%Z
  /\ is_ok (finished (Sample.world_of (fun _ => Sample.garbled))
              (Sample.worker "web1")) = true.
Proof. repeat split. Qed.

(** C1, amended.  A worker whose remote operation gives back an error
    stream with at least one line, and whose [stdout] is read to its end
    or fails with an exception that an [except] clause reports, ends with
    exit code 1 and is not counted as a success, whatever the exit status
    of the remote command (the status is a field of the channel the
    server answers with, and it is not constrained here) and whatever
    happens once the first line of [stderr] has been read. *)
Theorem stderr_output_is_failure (w : world) (p : process) (n : Z)
  (out err : stream) :
  int_port (config (executor p)) = Ok n ->
  connect (servers w (host p)) (hostname (config (executor p))) n
    (user (config (executor p))) = None ->
  fst (Worker.exec_command (executor p) (servers w (host p)) initial)
  = Ok (out, err) ->
  lines err <> [] ->
  (forall e, fault out = Some e -> reported e = true) ->
  exitcode (finished w p) = Some 1%Z /\ is_ok (finished w p) = false.
Proof.
  intros Hp Hc He Hl Hr.
  assert (E : fst (_exec (python_version w) (executor p) (servers w (host p)))
              = Ok 1%Z).
  { destruct (fault out) as [e|] eqn:Ho.
    - rewrite exec_returns. cbn [fst]. unfold try_except.
      rewrite (stdout_fault _ _ n out err e Hp Hc He Ho).
      destruct (reported_handled (python_version w) (executor p) e
                  (Hr e eq_refl)) as (h & Hh).
      rewrite Hh.
      match goal with
      | |- context [h ?st] =>
          destruct (handler_run (python_version w) (executor p) e h st Hh)
            as [(line & ->)|(Hn & _)]
      end.
      + reflexivity.
      + rewrite (Hr e eq_refl) in Hn. discriminate.
    - apply exec_after_stderr.
      now rewrite (stderr_reached _ _ n out err Hp Hc He Ho). }
  unfold is_ok, finished, run. cbn [exitcode]. rewrite E. auto.
Qed.

Lemma stderr_output_is_failure_witness :
  Session.exit_status Sample.noisy_channel = 0%Z
  /\ (exitcode (finished (Sample.world_of (fun _ => Sample.noisy))
                  (Sample.worker "web1")) = Some 1%Z
      /\ is_ok (finished (Sample.world_of (fun _ => Sample.noisy))
                  (Sample.worker "web1")) = false)
  /\ (exitcode (finished (Sample.world_of (fun _ => Sample.dropped))
                  (Sample.worker "web1")) = Some 1%Z
      /\ is_ok (finished (Sample.world_of (fun _ => Sample.dropped))
                  (Sample.worker "web1")) = false).
Proof.
  split; [reflexivity|]. split.
  - apply (stderr_output_is_failure (Sample.world_of (fun _ => Sample.noisy))
             (Sample.worker "web1") 22 (mkStream ["done"] None)
             (mkStream ["warning: low disk"] None));
      try reflexivity; [discriminate|]. intros e H. discriminate H.
  - apply (stderr_output_is_failure
             (Sample.world_of (fun _ => Sample.dropped))
             (Sample.worker "web1") 22
             (mkStream ["partial"] (Some Sample.reset_by_peer))
             (mkStream ["warning: low disk"] None));
      try reflexivity; [discriminate|].
    intros e H. injection H as <-. reflexivity.
Defined.

(** What the [except IOError] clause does: when the body of the [try]
    raises an [IOError], one line made of the host and of the text of the
    error is added to what the body printed, and the exit code is 1. *)
Lemma io_error_reported (py : python) (self : Executor) (srv : server)
  (e : exc) :
  fst (body self srv initial) = Raise e -> is_IOError e = true ->
  _exec py self srv
  = (Ok 1%Z,
     mkW 1 (printed (snd (body self srv initial))
            ++ [colored (prefixed (Worker.host self) (exc_str e)) (Some red)
                  []])%list
       true).
Proof.
  intros Hb He. rewrite exec_returns. unfold try_except.
  destruct (body self srv initial) as [[[]|e'] s]; simpl in Hb;
    [discriminate|]. injection Hb as ->.
  unfold handlers. rewrite He. reflexivity.
Qed.

(** The same for the paramiko errors, when the exception carries a
    [message]. *)
Lemma ssh_error_reported (py : python) (self : Executor) (srv : server)
  (e : exc) (m : string) :
  fst (body self srv initial) = Raise e -> is_IOError e = false ->
  is_ssh_error e = true -> exc_message e = Some m ->
  exists line,
    _exec py self srv
    = (Ok 1%Z,
       mkW 1 (printed (snd (body self srv initial)) ++ [line])%list true).
Proof.
  intros Hb He Hs Hm. rewrite exec_returns. unfold try_except.
  destruct (body self srv initial) as [[[]|e'] s]; simpl in Hb;
    [discriminate|]. injection Hb as ->.
  unfold handlers. rewrite He, Hs. unfold Worker.bind, Worker.lift, message.
  rewrite Hm. destruct py; simpl; eauto.
Qed.

(** C2, at the input where the code departs from it: the connection is
    refused with an authentication error that has no [message] attribute.
    The handler raises in its turn, the [return] of the [finally] clause
    discards that exception, no line is printed and the worker ends with
    exit code 0: the host is counted as a success. *)
Theorem auth_failure_goes_unreported :
  fst (body (Sample.ls_on "web1") Sample.locked initial)
  = Raise Sample.auth_failure
  /\ _exec Py3 (Sample.ls_on "web1") Sample.locked = (Ok 0%Z, mkW 0 [] true)
  /\ is_ok (finished (Sample.world_of (fun _ => Sample.locked))
              (Sample.worker "web1")) = true.
Proof. repeat split. Qed.

(** C9, as the specification words it, at an input where it fails: the
    session goes well, and [client.close()] raises in the [finally]
    clause.  The [return] is not reached and the exception leaves
    [_exec]: no integer is returned. *)
Lemma close_failure_leaves_exec :
  fst (body (Sample.ls_on "web1") Sample.quiet initial) = Ok tt
  /\ _exec_closing (Some Sample.reset_by_peer) Py3 (Sample.ls_on "web1")
       Sample.quiet
     = (Raise Sample.reset_by_peer, mkW 0 ["web1: ok"] false).
Proof. split; reflexivity. Qed.

(** C9, amended.  When [client.close()] returns, [_exec] returns an
    integer and lets no exception out: the value its local [exitcode]
    holds when the [try] statement is left, the client having been closed.
    An exception in flight at that point is dropped by the [return] of the
    [finally] clause, be it one that no [except] clause catches or one
    that the clause which caught the first raises in its turn; in both
    cases the value returned is the one [exitcode] had when the body of
    the [try] raised, since a clause that raises has not assigned it.
    That value can be 0: there is a run in which the body raises a
    paramiko error, its clause raises, 0 is returned and the host is
    counted as a success. *)
Theorem exec_returns_from_finally (closing : option exc) (py : python)
  (self : Executor) (srv : server) :
  closing = None ->
  (exists n printed,
     _exec_closing closing py self srv = (Ok n, mkW n printed true)
     /\ n = Worker.exitcode
              (snd (try_except (body self srv) (handlers py self) initial)))
  /\ (forall e,
        fst (body self srv initial) = Raise e -> handlers py self e = None ->
        fst (try_except (body self srv) (handlers py self) initial) = Raise e
        /\ fst (_exec_closing closing py self srv)
           = Ok (Worker.exitcode (snd (body self srv initial))))
  /\ (forall e h e',
        fst (body self srv initial) = Raise e ->
        handlers py self e = Some h ->
        fst (h (snd (body self srv initial))) = Raise e' ->
        fst (try_except (body self srv) (handlers py self) initial) = Raise e'
        /\ fst (_exec_closing closing py self srv)
           = Ok (Worker.exitcode (snd (body self srv initial))))
  /\ exists (w : world) (p : process) (e : exc) (h : W unit),
       fst (body (executor p) (servers w (host p)) initial) = Raise e
       /\ handlers (python_version w) (executor p) e = Some h
       /\ fst (h (snd (body (executor p) (servers w (host p)) initial)))
          = Raise attribute_error
       /\ fst (_exec_closing closing (python_version w) (executor p)
                 (servers w (host p))) = Ok 0%Z
       /\ is_ok (finished w p) = true.
Proof.
  intros ->. split; [|split; [|split]].
  - eexists _, _. rewrite exec_closing_returns, exec_returns. cbv zeta.
    split; reflexivity.
  - intros e Hb Hh. rewrite exec_closing_returns, exec_returns. cbv zeta.
    unfold try_except.
    destruct (body self srv initial) as [[[]|e0] s]; simpl in Hb;
      [discriminate|]. injection Hb as ->. rewrite Hh. split; reflexivity.
  - intros e h e' Hb Hh Hr. rewrite exec_closing_returns, exec_returns.
    cbv zeta. unfold try_except.
    destruct (body self srv initial) as [[[]|e0] s]; simpl in Hb;
      [discriminate|]. injection Hb as ->. rewrite Hh. cbn [snd] in *.
    destruct (handler_run py self e h s Hh) as [(line & Hrun)|(_ & Hrun)];
      rewrite Hrun in *; [discriminate|]. cbn [fst snd] in *.
    split; [exact Hr|reflexivity].
  - exists (Sample.world_of (fun _ => Sample.locked)), (Sample.worker "web1"),
      Sample.auth_failure.
    eexists. repeat split.
Qed.

Lemma exec_returns_from_finally_witness :
  fst (_exec_closing None Py3 (Sample.ls_on "web1") Sample.locked) = Ok 0%Z
  /\ fst (_exec_closing None Py3
            (mkExecutor "web1" (mkConfig "web1" (BadPort "ssh") None)
               (SSHExecutor "ls"))
            Sample.noisy) = Ok 0%Z.
Proof.
  split.
  - destruct (exec_returns_from_finally None Py3 (Sample.ls_on "web1")
                Sample.locked eq_refl) as (_ & _ & H & _).
    destruct (H Sample.auth_failure _ attribute_error eq_refl eq_refl
                eq_refl) as [_ E].
    exact E.
  - destruct (exec_returns_from_finally None Py3
                (mkExecutor "web1" (mkConfig "web1" (BadPort "ssh") None)
                   (SSHExecutor "ls"))
                Sample.noisy eq_refl) as (_ & H & _).
    destruct (H _ eq_refl eq_refl) as [_ E]. exact E.
Defined.

End WorkerResult.

(** ** The report *)

Section Report.
Import Exn Session Termcolor Worker Pypsh.

Lemma num_ok_length (processes : list process) :
  num_ok processes = List.length (filter is_ok processes).
Proof.
  unfold num_ok. induction (filter is_ok processes) as [|p l IH]; simpl;
    congruence.
Qed.




Lemma filter_perm {A : Type} (f : A -> bool) (l m : list A) :
  Permutation l m -> Permutation (filter f l) (filter f m).
Proof.
  induction 1 as [|x l m _ IH|x y l|l m n _ IH1 _ IH2]; simpl.
  - constructor.
  - destruct (f x); [now constructor|exact IH].
  - destruct (f x), (f y); try reflexivity. apply perm_swap.
  - now transitivity (filter f m).
Qed.

Lemma print_result_lines (processes : list process) :
  print_result processes
  = ([Print (">>> "
             ++ colored (Py.str_of_nat (num_ok processes)) (Some green) []
             ++ " successful invocations.");
      Print (">>> "
             ++ colored (Py.str_of_nat (List.length (failures processes)))
                  (Some red) []
             ++ " failures:")]
     ++ map (fun h => Print (tab ++ h)) (map host (failures processes)),
     Returns tt)%list.
Proof.
  unfold print_result, print.
  rewrite (for_each_emit (failures processes)
             (fun p => Print (tab ++ host p))).
  rewrite map_map. reflexivity.
Qed.

(** C7. The failed hosts of the report are in the order of their
    identifiers, and the list depends on which processes failed only: any
    other order of the processes gives the same lines. *)
Theorem failures_listed_sorted (processes processes' : list process) :
  Permutation processes processes' ->
  StronglySorted Py.str_le (map host (failures processes))
  /\ map host (failures processes') = map host (failures processes)
  /\ fst (print_result processes') = fst (print_result processes)
  /\ exists summary,
       fst (print_result processes)
       = (summary
          ++ map (fun h => Print (tab ++ h))
               (map host (failures processes)))%list.
Proof.
  intros Hp.
  assert (Hf : map host (failures processes')
               = map host (failures processes)).
  { unfold failures. apply sorted_keys_order_free, filter_perm.
    now symmetry. }
  split; [apply sorted_keys_sorted|]. split; [exact Hf|]. split.
  - rewrite !print_result_lines. cbn [fst]. rewrite Hf.
    rewrite !num_ok_length.
    rewrite <- (length_map host (failures processes')), Hf, length_map.
    now rewrite (Permutation_length (filter_perm is_ok _ _ Hp)).
  - rewrite print_result_lines. cbn [fst]. eauto.
Qed.

End Report.

(** ** Dispatching *)

Section Dispatch.
Import Exn Session Termcolor Worker Pypsh.

Local Arguments Pypsh.bind : simpl never.

(** [start_procs] returns: its events are those of the launching loop and
    then those of the drain loop, and it returns the launched processes as
    the drain loop left them. *)
Lemma start_procs_spec (w : world) (interval : float) (hosts : list string)
  f :
  exists tr g,
    start_procs w interval hosts f
    = ((flat_map (launch_events interval)
          (launched_from w interval f 0 hosts) ++ tr)%list,
       Returns (map g (launched_from w interval f 0 hosts)))
    /\ (forall p, In p (launched_from w interval f 0 hosts) ->
                  ended w tr p (g p))
    /\ (forall e, In e tr -> is_start e = false)
    /\ (forall k, ~ In (Join k) tr)
    /\ exists children rest, tr = ActiveChildren children :: rest.
Proof.
  unfold start_procs. rewrite launch_spec, bind_returns. simpl app.
  destruct (drain_spec w (horizon w (launched_from w interval f 0 hosts)) 0
              (launched_from w interval f 0 hosts))
    as (tr & g & Hd & H); [lia|].
  exists tr, g. rewrite Hd. auto.
Qed.


Lemma launched_exited (w : world) (interval : float) f (n : nat)
  (hosts : list string) (p : process) :
  In p (launched_from w interval f n hosts) -> alive p = false ->
  exitcode p
  = Some (Worker.run (python_version w) (executor p) (servers w (host p))).
Proof.
  revert n. induction hosts as [|h hosts IH]; intros n; simpl; [tauto|].
  intros [<-|H] Ha; [|now apply (IH (S n))].
  unfold launched in *. destruct (throttled interval); [reflexivity|].
  discriminate.
Qed.



End Dispatch.

(** ** The two modes of launching *)

Section Modes.
Import Exn Session Termcolor Worker Pypsh.

Local Arguments Pypsh.bind : simpl never.

Lemma settle_exited (w : world) (tick : nat) (p : process) :
  alive p = false -> settle w tick p = p.
Proof. intros H. unfold settle. now rewrite H. Qed.

(** When no process is running the drain loop polls once and returns. *)
Lemma drain_idle (w : world) (fuel tick : nat) (processes : list process) :
  (forall p, In p processes -> alive p = false) ->
  drain w fuel tick processes = ([ActiveChildren []], Returns processes).
Proof.
  intros H.
  assert (Hm : map (settle w tick) processes = processes).
  { rewrite <- (map_id processes) at 2. apply map_ext_in.
    intros p Hp. apply settle_exited. now apply H. }
  assert (Hc : active_children processes = []).
  { unfold active_children.
    replace (filter alive processes) with (@nil process); [reflexivity|].
    symmetry. induction processes as [|p l IH]; [reflexivity|]. simpl.
    rewrite (H p (or_introl eq_refl)). apply IH.
    - intros q Hq. apply H. now right.
    - simpl in Hm. now injection Hm. }
  destruct fuel; simpl drain; rewrite Hm, Hc; reflexivity.
Qed.

(** In a run of launches, each made of a start, a join and a sleep, a
    start is the first event or comes right after the join and the sleep
    of the worker before. *)
Lemma start_follows_join (interval : float) (processes : list process)
  (n : nat) (tail pre post : list event) (m : nat) (h : string) :
  map pid processes = seq n (List.length processes) ->
  (forall e, In e tail -> is_start e = false) ->
  (flat_map (fun p => [Start (pid p) (host p); Join (pid p); Sleep interval])
     processes ++ tail = pre ++ Start m h :: post)%list ->
  (m = n /\ pre = [])
  \/ exists pre' h',
       m = S (Nat.pred m) /\
       pre = (pre' ++ [Start (Nat.pred m) h'; Join (Nat.pred m);
                       Sleep interval])%list.
Proof.
  revert n pre. induction processes as [|p l IH]; intros n pre Hpid Ht Heq.
  - simpl in Heq. exfalso.
    assert (In (Start m h) tail) as Hin
        by (rewrite Heq; apply in_or_app; right; now left).
    apply Ht in Hin. discriminate.
  - simpl in Hpid. injection Hpid as Hp Hl. simpl in Heq.
    destruct pre as [|a [|b [|c pre]]]; simpl in Heq;
      try (injection Heq; intros; discriminate).
    + injection Heq as Hm _. left. split; [congruence|reflexivity].
    + injection Heq as Ha Hb Hc Heq.
      destruct (IH (S n) pre Hl Ht Heq) as [[-> ->]|(pre' & h' & Hm & ->)].
      * right. exists [], (host p). simpl. subst. auto.
      * right. exists (a :: b :: c :: pre'), h'. auto.
Qed.

(** C4. With an interval above zero, [start_procs] starts a worker, waits
    in [join] until it has exited, sleeps for the interval, and only then
    goes on to the next host; the drain loop then finds no worker running.
    So the start of worker [k + 1] comes right after the join of worker [k]
    and the sleep, and every worker has its exit code when the next one is
    started. *)
Theorem throttled_launch_is_sequential (w : world) (interval : float)
  (hosts : list string) f :
  throttled interval = true ->
  exists processes,
    start_procs w interval hosts f
    = ((flat_map
          (fun p => [Start (pid p) (host p); Join (pid p); Sleep interval])
          processes ++ [ActiveChildren []])%list,
       Returns processes)
    /\ map pid processes = seq 0 (List.length hosts)
    /\ map executor processes = map (fun h => f h (ssh_config w h)) hosts
    /\ (forall p, In p processes ->
          alive p = false
          /\ exitcode p
             = Some (Worker.run (python_version w) (executor p)
                       (servers w (host p))))
    /\ forall pre k h post,
         fst (start_procs w interval hosts f)
         = (pre ++ Start (S k) h :: post)%list ->
         exists pre' h',
           pre = (pre' ++ [Start k h'; Join k; Sleep interval])%list.
Proof.
  intros Ht. set (L := launched_from w interval f 0 hosts).
  assert (Ha : forall p, In p L -> alive p = false).
  { intros p Hp. rewrite (launched_from_alive w interval f 0 hosts p Hp).
    now rewrite Ht. }
  assert (Hs : start_procs w interval hosts f
               = ((flat_map
                     (fun p => [Start (pid p) (host p); Join (pid p);
                                Sleep interval]) L
                   ++ [ActiveChildren []])%list, Returns L)).
  { unfold start_procs. rewrite launch_spec, bind_returns. simpl app.
    fold L. rewrite (drain_idle w _ 0 L Ha). cbn [fst snd].
    f_equal. f_equal. apply flat_map_ext. intros p.
    unfold launch_events. now rewrite Ht. }
  assert (Hpid : map pid L = seq 0 (List.length hosts))
    by apply launched_from_pids.
  exists L. split; [exact Hs|]. split; [exact Hpid|].
  split; [apply launched_from_executors|]. split.
  - intros p Hp. split; [now apply Ha|].
    apply (launched_exited w interval f 0 hosts p Hp). now apply Ha.
  - intros pre k h post Heq. rewrite Hs in Heq. cbn [fst] in Heq.
    destruct (start_follows_join interval L 0 [ActiveChildren []] pre post
                (S k) h) as [[Hk _]|(pre' & h' & _ & Hpre)].
    + unfold L. now rewrite launched_from_length.
    + intros e [<-|[]]. reflexivity.
    + exact Heq.
    + discriminate.
    + exists pre', h'. exact Hpre.
Qed.

Lemma throttled_launch_is_sequential_witness :
  throttled 1.5%float = true
  /\ exists processes,
       start_procs (Sample.world_of (fun _ => Sample.quiet)) 1.5%float
         ["web1"; "web2"] (ssh_executer "ls")
       = ((flat_map
             (fun p => [Start (pid p) (host p); Join (pid p);
                        Sleep 1.5%float])
             processes ++ [ActiveChildren []])%list,
          Returns processes).
Proof.
  split; [reflexivity|].
  destruct (throttled_launch_is_sequential
              (Sample.world_of (fun _ => Sample.quiet)) 1.5%float
              ["web1"; "web2"] (ssh_executer "ls") eq_refl)
    as (processes & Hs & _).
  exists processes. exact Hs.
Defined.

(** That run, event by event. *)
Example throttled_run :
  start_procs (Sample.world_of (fun _ => Sample.quiet)) 1.5%float
    ["web1"; "web2"] (ssh_executer "ls")
  = ([Start 0 "web1"; Join 0; Sleep 1.5%float;
      Start 1 "web2"; Join 1; Sleep 1.5%float; ActiveChildren []],
     Returns [finished (Sample.world_of (fun _ => Sample.quiet))
                (Sample.worker "web1");
              finished (Sample.world_of (fun _ => Sample.quiet))
                (mkProcess 1 (Sample.ls_on "web2") true None)]).
Proof. reflexivity. Qed.

Lemma launched_running (w : world) (interval : float) f (n : nat)
  (hosts : list string) (p : process) :
  In p (launched_from w interval f n hosts) -> throttled interval = false ->
  alive p = true /\ exitcode p = None.
Proof.
  intros Hp Ht. revert n Hp.
  induction hosts as [|h hosts IH]; intros n; simpl; [tauto|].
  intros [<-|Hp]; [|now apply (IH (S n))].
  unfold launched. rewrite Ht. auto.
Qed.

(** Without throttling the loop only starts workers. *)
Lemma concurrent_launch (w : world) (interval : float)
  (hosts : list string) f :
  throttled interval = false ->
  launch w interval f hosts []
  = (map (fun p => Start (pid p) (host p))
       (launched_from w interval f 0 hosts),
     Returns (launched_from w interval f 0 hosts)).
Proof.
  intros Ht. rewrite launch_spec. cbn [List.length app]. f_equal.
  induction (launched_from w interval f 0 hosts) as [|p l IH];
    [reflexivity|].
  cbn [flat_map map]. rewrite IH. unfold launch_events. rewrite Ht.
  reflexivity.
Qed.

(** C5. With interval 0, the loop of [start_procs] starts one worker per
    host and does nothing else: it joins no worker and does not sleep, so
    every worker is started, none having been required to end (each is
    recorded as running, with no exit code).  The events of the drain loop
    come after all the starts, and begin with its first poll. *)
Theorem concurrent_launch_before_drain (w : world) (hosts : list string) f :
  exists processes tr o,
    launch w 0%float f hosts []
    = (map (fun p => Start (pid p) (host p)) processes, Returns processes)
    /\ map executor processes = map (fun h => f h (ssh_config w h)) hosts
    /\ (forall p, In p processes -> alive p = true /\ exitcode p = None)
    /\ start_procs w 0%float hosts f
       = ((map (fun p => Start (pid p) (host p)) processes ++ tr)%list, o)
    /\ (forall e, In e tr -> is_start e = false)
    /\ (forall k, ~ In (Join k) tr)
    /\ exists children rest, tr = ActiveChildren children :: rest.
Proof.
  assert (Ht : throttled 0%float = false) by reflexivity.
  destruct (start_procs_spec w 0%float hosts f)
    as (tr & g & Hs & _ & Hst & Hj & Hc).
  set (L := launched_from w 0%float f 0 hosts) in *.
  exists L, tr, (Returns (map g L)).
  split; [now apply concurrent_launch|].
  split; [apply launched_from_executors|]. split; [|split].
  - intros p Hp. now apply (launched_running w 0%float f 0 hosts).
  - rewrite Hs. reflexivity.
  - auto.
Qed.

(** A run with two hosts, the second of which is still running at the
    first poll. *)
Example concurrent_run :
  fst (start_procs (Sample.world_of (fun _ => Sample.quiet)) 0%float
         ["web1"; "web2"] (ssh_executer "ls"))
  = [Start 0 "web1"; Start 1 "web2"; ActiveChildren [0; 1]; Sleep POLL;
     ActiveChildren [1]; Sleep POLL; ActiveChildren []].
Proof. reflexivity. Qed.

(** What [get_hosts] prints and returns when the store is read and the
    pattern compiles. *)
Lemma get_hosts_spec (w : world) (pattern : string) (keys : list string)
  (r : Re.regex) :
  known_hosts w = Ok keys -> Re.compile pattern = Re.Compiled r ->
  get_hosts w pattern
  = (let hosts := filter (Re.rmatch r) keys in
     [Print (">>> "
             ++ colored (Py.str_of_nat (List.length hosts))
                  (Some (if Nat.ltb 0 (List.length hosts) then green else red))
                  [bold]
             ++ " Hosts matched:");
      Print "";
      Print (Py.join (String Re.newline "") (Py.sorted (fun h => h) hosts));
      Print ""],
     Returns (filter (Re.rmatch r) keys)).
Proof. intros Hk Hc. unfold get_hosts. rewrite Hk, Hc. reflexivity. Qed.

(** C10, as the specification words it, at two inputs where it fails.  No
    stored host matches the pattern [mail].  When [~/.ssh/config] cannot
    be opened, [start_procs] raises on its second line: the error leaves
    [dispatch] and no report is printed.  And a copy whose source is not a
    file exits with status 1 before [start_procs], without a report
    either. *)
Lemma empty_selection_without_report :
  snd (get_hosts (Sample.world_of (fun _ => Sample.quiet)) "mail")
  = Returns []
  /\ Whole.start_procs
       (Whole.mkSetting
          (Some (Sample.no_such_file "/home/admin/.ssh/config"))
          (fun _ => None))
       (Sample.world_of (fun _ => Sample.quiet)) 0%float []
       (ssh_executer "ls")
     = ([], Raises (Sample.no_such_file "/home/admin/.ssh/config"))
  /\ Whole.dispatch
       (Whole.mkSetting
          (Some (Sample.no_such_file "/home/admin/.ssh/config"))
          (fun _ => None))
       (Sample.world_of (fun _ => Sample.quiet))
       (mkArgs "mail" 0%float (CmdArgs "ls"))
     = ([Print (">>> " ++ colored "0" (Some red) [bold] ++ " Hosts matched:");
         Print ""; Print ""; Print "";
         Print ">>> Starting to execute the command(s):"; Print ""],
        Raises (Sample.no_such_file "/home/admin/.ssh/config"))
  /\ Whole.dispatch Whole.ready
       (mkWorld Py3 (Ok Sample.store) Sample.plain (fun _ => Sample.quiet)
          (fun _ => false) (fun n => S n) None (fun _ => true))
       (mkArgs "mail" 0%float (CopyArgs "notes.txt" "/tmp/n"))
     = ([Print (">>> " ++ colored "0" (Some red) [bold] ++ " Hosts matched:");
         Print ""; Print ""; Print "";
         Print (colored ">>> Source notes.txt does not exist" (Some red) [])],
        Exits (Status 1)).
Proof. repeat split. Qed.

(** C10, amended.  When no stored host matches the pattern,
    [~/.ssh/config] can be opened and parsed and, for a copy, the source
    is a file: [get_hosts] returns the empty list; [start_procs] starts no
    worker and returns the empty list after one poll; [dispatch] returns
    normally, and what it does is print the lines of [get_hosts], its two
    opening lines, poll once, and print a report of 0 successes and 0
    failures that lists no host. *)
Theorem empty_selection_reports_zero (m : Whole.setting) (w : world)
  (a : args) (keys : list string) (r : Re.regex) f :
  Whole.opening m = None ->
  known_hosts w = Ok keys -> Re.compile (hostregex a) = Re.Compiled r ->
  (forall k, In k keys -> Re.rmatch r k = false) ->
  (forall source destination,
     sub a = CopyArgs source destination -> isfile w source = true) ->
  snd (get_hosts w (hostregex a)) = Returns []
  /\ Whole.start_procs m w (interval a) [] f
     = ([ActiveChildren []], Returns [])
  /\ num_ok [] = 0 /\ failures [] = []
  /\ Whole.dispatch m w a
     = ([Print (">>> " ++ colored "0" (Some red) [bold] ++ " Hosts matched:");
         Print ""; Print ""; Print "";
         Print (match sub a with
                | CmdArgs _ => ">>> Starting to execute the command(s):"
                | CopyArgs _ _ => ">>> Starting to copy the file:"
                end);
         Print "";
         ActiveChildren [];
         Print (">>> " ++ colored "0" (Some green) []
                ++ " successful invocations.");
         Print (">>> " ++ colored "0" (Some red) [] ++ " failures:")],
        Returns tt).
Proof.
  intros Ho Hk Hc Hn Hf.
  assert (He : filter (Re.rmatch r) keys = []).
  { clear Hk. induction keys as [|k keys IH]; [reflexivity|].
    simpl. rewrite (Hn k (or_introl eq_refl)). apply IH.
    intros q Hq. apply Hn. now right. }
  assert (Hs : forall g, Whole.start_procs m w (interval a) [] g
                         = ([ActiveChildren []], Returns [])).
  { intros g. unfold Whole.start_procs. rewrite Ho. reflexivity. }
  split; [|split; [|split; [|split]]]; try reflexivity.
  - rewrite (get_hosts_spec w (hostregex a) keys r Hk Hc). cbn [snd].
    now rewrite He.
  - apply Hs.
  - unfold Whole.dispatch.
    rewrite (get_hosts_spec w (hostregex a) keys r Hk Hc). cbv zeta.
    rewrite He, bind_returns.
    destruct (sub a) as [command|source destination].
    + unfold Whole.cmd. rewrite Hs. reflexivity.
    + unfold Whole.copy.
      rewrite (Hf source destination eq_refl), Hs. reflexivity.
Qed.

Lemma empty_selection_reports_zero_witness :
  snd (get_hosts (Sample.world_of (fun _ => Sample.quiet)) "mail")
  = Returns []
  /\ Whole.start_procs Whole.ready (Sample.world_of (fun _ => Sample.quiet))
       0%float [] (ssh_executer "ls")
     = ([ActiveChildren []], Returns [])
  /\ snd (Whole.dispatch Whole.ready
            (Sample.world_of (fun _ => Sample.quiet))
            (mkArgs "mail" 0%float (CmdArgs "ls")))
     = Returns tt.
Proof.
  destruct (empty_selection_reports_zero Whole.ready
              (Sample.world_of (fun _ => Sample.quiet))
              (mkArgs "mail" 0%float (CmdArgs "ls")) Sample.store
              (Re.Cat (Re.Chr "m")
                 (Re.Cat (Re.Chr "a") (Re.Cat (Re.Chr "i") (Re.Chr "l"))))
              (ssh_executer "ls") eq_refl eq_refl eq_refl)
    as (Hg & Hs & _ & _ & Hd).
  - intros k [<-|[<-|[<-|[]]]]; reflexivity.
  - intros source destination H. discriminate H.
  - split; [exact Hg|]. split; [exact Hs|]. now rewrite Hd.
Defined.

End Modes.

(** ** Host selection and fatal errors *)

Section Selection.
Import Exn Session Termcolor Worker Pypsh.

(** C6. [get_hosts] selects, in the order of the store, the hosts some
    beginning of which the pattern matches: the whole identifier need not
    be matched.  It prints them sorted.  With the pattern [web] and the
    store [web1], [web2], [db1] it selects [web1] and [web2], neither of
    which the pattern matches as a whole. *)
Theorem get_hosts_matches_from_start (w : world) (pattern : string)
  (keys : list string) (r : Re.regex) :
  known_hosts w = Ok keys -> Re.compile pattern = Re.Compiled r ->
  exists tr hosts,
    get_hosts w pattern = (tr, Returns hosts)
    /\ hosts = filter (Re.rmatch r) keys
    /\ (forall k, In k hosts <->
                  In k keys /\ exists u v, k = u ++ v /\ Re.matches r u)
    /\ In (Print (Py.join (String Re.newline "")
                    (Py.sorted (fun h => h) hosts))) tr
    /\ StronglySorted Py.str_le (Py.sorted (fun h => h) hosts)
    /\ Permutation hosts (Py.sorted (fun h => h) hosts)
    /\ (pattern = "web" -> keys = ["web1"; "web2"; "db1"] ->
        hosts = ["web1"; "web2"]
        /\ Py.sorted (fun h => h) hosts = ["web1"; "web2"]
        /\ Re.fullmatch r "web1" = false /\ Re.fullmatch r "web2" = false).
Proof.
  intros Hk Hc. rewrite (get_hosts_spec w pattern keys r Hk Hc). cbv zeta.
  eexists _, _. split; [reflexivity|]. split; [reflexivity|].
  split; [|split; [|split; [|split]]].
  - intros k. rewrite filter_In, rmatch_spec. reflexivity.
  - simpl. auto.
  - pose proof (sorted_keys_sorted (fun h : string => h)
                  (filter (Re.rmatch r) keys)) as H.
    now rewrite map_id in H.
  - apply sorted_perm.
  - intros -> ->. injection Hc as <-. repeat split.
Qed.

Lemma get_hosts_matches_from_start_witness :
  exists tr,
    get_hosts (Sample.world_of (fun _ => Sample.quiet)) "web"
    = (tr, Returns ["web1"; "web2"])
    /\ In (Print (Py.join (String Re.newline "") ["web1"; "web2"])) tr.
Proof.
  destruct (get_hosts_matches_from_start
              (Sample.world_of (fun _ => Sample.quiet)) "web" Sample.store
              (Re.Cat (Re.Chr "w") (Re.Cat (Re.Chr "e") (Re.Chr "b")))
              eq_refl eq_refl)
    as (tr & hosts & Hg & _ & _ & Hp & _ & _ & Hw).
  destruct (Hw eq_refl eq_refl) as (-> & Hs & _).
  exists tr. split; [exact Hg|]. now rewrite Hs in Hp.
Defined.






(** The other fatal errors, run: a pattern with a group left open, a
    pattern with a character set left open, and a store that paramiko
    rejects. *)
Example invalid_pattern_run :
  Whole.dispatch Whole.ready (Sample.world_of (fun _ => Sample.quiet))
    (mkArgs "web(" 0%float (CmdArgs "ls"))
  = ([], Exits (Message (colored "Invalid regular expression!" (Some red)
                           [bold])))
  /\ Whole.dispatch Whole.ready (Sample.world_of (fun _ => Sample.quiet))
       (mkArgs "web[" 0%float (CmdArgs "ls"))
     = ([], Exits (Message (colored "Invalid regular expression!" (Some red)
                              [bold]))).
Proof. split; reflexivity. Qed.

Example corrupt_store_run :
  Whole.dispatch Whole.ready
    (mkWorld Py2
       (Raise (mkExc SSHException "Invalid key" (Some "Invalid key")))
       Sample.plain (fun _ => Sample.quiet) (fun _ => true) (fun n => n)
       None (fun _ => true))
    (mkArgs "web" 0%float (CmdArgs "ls"))
  = ([Print (colored "Error in ~/.ssh/known_hosts:" (Some red) [bold])],
     Exits (Message (colored "Invalid key" (Some red) []))).
Proof. reflexivity. Qed.

Lemma failures_listed_sorted_witness :
  map host
    (failures [finished (Sample.world_of (fun _ => Sample.noisy))
                 (Sample.worker "web2");
               finished (Sample.world_of (fun _ => Sample.noisy))
                 (Sample.worker "db1")])
  = ["db1"; "web2"]
  /\ map host
       (failures [finished (Sample.world_of (fun _ => Sample.noisy))
                    (Sample.worker "db1");
                  finished (Sample.world_of (fun _ => Sample.noisy))
                    (Sample.worker "web2")])
     = ["db1"; "web2"].
Proof.
  destruct (failures_listed_sorted
              [finished (Sample.world_of (fun _ => Sample.noisy))
                 (Sample.worker "web2");
               finished (Sample.world_of (fun _ => Sample.noisy))
                 (Sample.worker "db1")]
              [finished (Sample.world_of (fun _ => Sample.noisy))
                 (Sample.worker "db1");
               finished (Sample.world_of (fun _ => Sample.noisy))
                 (Sample.worker "web2")]
              (perm_swap _ _ [])) as (_ & H & _).
  split; [reflexivity|]. rewrite H. reflexivity.
Defined.

End Selection.

(** ** More on the worker body *)

Section WorkerRuns.
Import Exn Session Termcolor Worker Pypsh Shape.

(** What the body of the [try] statement leaves behind, however it ends:
    the lines of [stdout] it was given, then those of [stderr], each with
    the host in front, and an exit code raised to 1 by the first line of
    [stderr]. *)
Lemma body_run (self : Executor) (srv : server) (s : wstate) :
  exists r outs errs,
    body self srv s
    = (r, mkW (match errs with [] => Worker.exitcode s | _ :: _ => 1%Z end)
            (printed s
             ++ map (fun l => prefixed (Worker.host self) (Py.rstrip l)) outs
             ++ map (fun l => colored (prefixed (Worker.host self)
                                         (Py.rstrip l)) (Some red) []) errs)%list
            (closed s)).
Proof.
  assert (Hnil : forall r : result unit,
            exists r' outs errs,
              (r, s)
              = (r', mkW (match errs with
                          | [] => Worker.exitcode s
                          | _ :: _ => 1%Z
                          end)
                       (printed s
                        ++ map (fun l => prefixed (Worker.host self)
                                           (Py.rstrip l)) outs
                        ++ map (fun l => colored
                                           (prefixed (Worker.host self)
                                              (Py.rstrip l)) (Some red) [])
                             errs)%list
                       (closed s))).
  { intros r. exists r, [], []. simpl. rewrite app_nil_r. now destruct s. }
  unfold body. unfold Worker.bind at 1. unfold Worker.lift at 1.
  destruct (int_port (config self)) as [p|e]; [|apply Hnil].
  unfold Worker.bind at 1.
  destruct (connect srv (hostname (config self)) p (user (config self)))
    as [e|]; simpl check; [apply Hnil|]. unfold Worker.ret at 1.
  unfold Worker.bind at 1.
  pose proof (exec_command_state self srv s) as Hs.
  destruct (Worker.exec_command self srv s) as [[[out err]|e] s'];
    simpl in Hs; subst s'; [|apply Hnil].
  cbn [fst snd]. unfold Worker.bind at 1. unfold for_stream at 1.
  unfold Worker.bind at 1. rewrite for_lines_print.
  destruct (fault out) as [e|]; simpl check.
  - exists (Raise e), (lines out), []. simpl. now rewrite app_nil_r.
  - unfold Worker.ret at 1. unfold for_stream. unfold Worker.bind at 1.
    rewrite (for_lines_stderr
               (fun line => colored (prefixed (Worker.host self)
                                       (Py.rstrip line)) (Some red) [])).
    cbn [Worker.exitcode printed closed].
    destruct (fault err) as [e|]; simpl check.
    + exists (Raise e), (lines out), (lines err).
      rewrite <- app_assoc. now destruct (lines err).
    + exists (Ok tt), (lines out), (lines err).
      unfold Worker.ret. rewrite <- app_assoc. now destruct (lines err).
Qed.

(** X1. [_exec] returns 0 or 1 and nothing else. *)
Theorem exit_code_is_binary (py : python) (self : Executor) (srv : server) :
  fst (_exec py self srv) = Ok 0%Z \/ fst (_exec py self srv) = Ok 1%Z.
Proof.
  rewrite exec_returns. cbn [fst]. unfold try_except.
  destruct (body_run self srv initial) as (r & outs & errs & ->).
  destruct r as [[]|e].
  - destruct errs; simpl; auto.
  - destruct (handlers py self e) as [h|] eqn:Hh.
    + match goal with
      | |- context [h ?st] =>
          destruct (handler_run py self e h st Hh)
            as [(line & ->)|(_ & ->)]
      end.
      * now right.
      * destruct errs; simpl; auto.
    + destruct errs; simpl; auto.
Qed.

(** The line an [except] clause prints. *)
Lemma handler_line (py : python) (self : Executor) (e : exc) (h : W unit)
  (s : wstate) (r : result unit) (s' : wstate) :
  handlers py self e = Some h -> h s = (r, s') ->
  printed s' = printed s
  \/ exists line,
       printed s' = (printed s ++ [line])%list
       /\ (host_line (Worker.host self) line
           \/ py = Py2 /\ tuple_line (Worker.host self) line).
Proof.
  unfold handlers. intros H Hrun.
  destruct (is_IOError e).
  - injection H as <-. right. injection Hrun as _ <-.
    eexists. split; [reflexivity|]. left. exists (exc_str e). auto.
  - destruct (is_ssh_error e); [injection H as <-|discriminate].
    unfold Worker.bind, Worker.lift, message in Hrun.
    destruct (exc_message e) as [m|].
    + right. destruct py; injection Hrun as _ <-;
        (eexists; split; [reflexivity|]).
      * right. split; [reflexivity|]. exists m. reflexivity.
      * left. exists m. auto.
    + left. now injection Hrun as _ <-.
Qed.

(** X2. Every line a worker prints carries its host: it is the host, a
    colon and a text, possibly between colour codes, the line of the
    paramiko clause having the word [red] behind it.  Under Python 2 that
    last line is the [repr] of a tuple instead, with the host and the text
    in its first part. *)
Theorem printed_lines_name_the_host (py : python) (self : Executor)
  (srv : server) :
  Forall (fun line =>
            host_line (Worker.host self) line
            \/ py = Py2 /\ tuple_line (Worker.host self) line)
    (printed (snd (_exec py self srv))).
Proof.
  rewrite exec_returns. cbn [snd printed]. unfold try_except.
  destruct (body_run self srv initial) as (r & outs & errs & ->).
  assert (Hb : Forall (fun line =>
                         host_line (Worker.host self) line
                         \/ py = Py2 /\ tuple_line (Worker.host self) line)
                 (map (fun l => prefixed (Worker.host self) (Py.rstrip l))
                    outs
                  ++ map (fun l => colored (prefixed (Worker.host self)
                                              (Py.rstrip l)) (Some red) [])
                       errs)%list).
  { apply Forall_app. split; apply Forall_forall; intros l Hl;
      apply in_map_iff in Hl as (x & <- & _); left; exists (Py.rstrip x);
      auto. }
  destruct r as [[]|e]; [exact Hb|].
  destruct (handlers py self e) as [h|] eqn:Hh; [|exact Hb].
  match goal with
  | |- context [h ?st] =>
      destruct (h st) as [r' s'] eqn:Hrun;
      apply (handler_line py self e h st r' s' Hh) in Hrun
  end.
  cbn [snd printed] in *.
  destruct Hrun as [->|(line & -> & Hline)]; [exact Hb|].
  apply Forall_app. split; [exact Hb|]. constructor; [exact Hline|constructor].
Qed.

Lemma clean_body (self : Executor) (srv : server) (p : Z)
  (out err : stream) :
  int_port (config self) = Ok p ->
  connect srv (hostname (config self)) p (user (config self)) = None ->
  fst (Worker.exec_command self srv initial) = Ok (out, err) ->
  fault out = None -> lines err = [] -> fault err = None ->
  body self srv initial
  = (Ok tt,
     mkW 0 (map (fun l => prefixed (Worker.host self) (Py.rstrip l))
              (lines out)) false).
Proof.
  intros Hp Hc He Ho Hl Hf. unfold body.
  unfold Worker.bind at 1. unfold Worker.lift at 1. rewrite Hp.
  unfold Worker.bind at 1. rewrite Hc. simpl check. unfold Worker.ret at 1.
  unfold Worker.bind at 1.
  pose proof (exec_command_state self srv initial) as Hs.
  destruct (Worker.exec_command self srv initial) as [r s'].
  simpl in He, Hs. subst r s'. cbn [fst snd].
  unfold Worker.bind at 1. unfold for_stream at 1. unfold Worker.bind at 1.
  rewrite for_lines_print, Ho. simpl check. unfold Worker.ret at 1.
  unfold for_stream, Worker.bind. rewrite Hl, Hf. reflexivity.
Qed.

(** X3. A run without an incident: when the port is a number, the
    connection is made, the operation gives its streams, both streams end
    normally and [stderr] is empty, the worker prints the lines of
    [stdout], each behind its host and without its trailing white space,
    and returns 0. *)
Theorem clean_run_succeeds (py : python) (self : Executor) (srv : server)
  (p : Z) (out err : stream) :
  int_port (config self) = Ok p ->
  connect srv (hostname (config self)) p (user (config self)) = None ->
  fst (Worker.exec_command self srv initial) = Ok (out, err) ->
  fault out = None -> lines err = [] -> fault err = None ->
  _exec py self srv
  = (Ok 0%Z,
     mkW 0 (map (fun l => prefixed (Worker.host self) (Py.rstrip l))
              (lines out)) true).
Proof.
  intros Hp Hc He Ho Hl Hf. rewrite exec_returns. unfold try_except.
  rewrite (clean_body self srv p out err Hp Hc He Ho Hl Hf). reflexivity.
Qed.

Lemma clean_run_succeeds_witness :
  _exec Py3 (Sample.ls_on "web1") Sample.quiet
  = (Ok 0%Z, mkW 0 ["web1: ok"] true).
Proof.
  exact (clean_run_succeeds Py3 (Sample.ls_on "web1") Sample.quiet 22
           (mkStream ["ok"] None) (mkStream [] None)
           eq_refl eq_refl eq_refl eq_refl eq_refl eq_refl).
Defined.

(** X4. A copy without an incident prints one line, [Copied to] and the
    host behind the host, and returns 0. *)
Theorem copy_reports_once (py : python) (self : Executor) (srv : server)
  (p : Z) (source destination : string) :
  op self = CopyExecutor source destination ->
  int_port (config self) = Ok p ->
  connect srv (hostname (config self)) p (user (config self)) = None ->
  open_sftp srv = None -> put srv source destination = None ->
  _exec py self srv
  = (Ok 0%Z,
     mkW 0 [prefixed (Worker.host self)
              (Py.rstrip ("Copied to " ++ Worker.host self))] true).
Proof.
  intros Ho Hp Hc Hs Hput. rewrite exec_returns. unfold try_except.
  rewrite (clean_body self srv p
             (mkStream ["Copied to " ++ Worker.host self] None)
             (mkStream [] None) Hp Hc); try reflexivity.
  unfold Worker.exec_command. rewrite Ho.
  unfold Worker.bind, check. rewrite Hs, Hput. reflexivity.
Qed.

Lemma copy_reports_once_witness :
  _exec Py3
    (mkExecutor "db1" (Sample.plain "db1") (CopyExecutor "notes.txt" "/tmp/n"))
    Sample.quiet
  = (Ok 0%Z, mkW 0 ["db1: Copied to db1"] true).
Proof.
  exact (copy_reports_once Py3
           (mkExecutor "db1" (Sample.plain "db1")
              (CopyExecutor "notes.txt" "/tmp/n"))
           Sample.quiet 22 "notes.txt" "/tmp/n"
           eq_refl eq_refl eq_refl eq_refl eq_refl).
Defined.

(** X5. An exception that is neither an [IOError] nor one of the three
    paramiko errors is caught by no clause: the [return] of the [finally]
    clause drops it, no line is printed for it, and the worker returns the
    exit code it had reached. *)
Theorem other_exception_is_dropped (py : python) (self : Executor)
  (srv : server) (e : exc) :
  fst (body self srv initial) = Raise e ->
  is_IOError e = false -> is_ssh_error e = false ->
  _exec py self srv
  = (Ok (Worker.exitcode (snd (body self srv initial))),
     mkW (Worker.exitcode (snd (body self srv initial)))
       (printed (snd (body self srv initial))) true).
Proof.
  intros Hb Hi Hs. rewrite exec_returns. unfold try_except.
  destruct (body self srv initial) as [[[]|e'] s]; simpl in Hb;
    [discriminate|]. injection Hb as ->.
  unfold handlers. rewrite Hi, Hs. reflexivity.
Qed.

Lemma other_exception_is_dropped_witness :
  _exec Py3
    (mkExecutor "web1" (mkConfig "web1" (BadPort "ssh") None)
       (SSHExecutor "ls"))
    Sample.noisy
  = (Ok 0%Z, mkW 0 [] true).
Proof.
  exact (other_exception_is_dropped Py3
           (mkExecutor "web1" (mkConfig "web1" (BadPort "ssh") None)
              (SSHExecutor "ls"))
           Sample.noisy _ eq_refl eq_refl eq_refl).
Defined.

(** X6. When the port of the host's configuration is not a number, the
    worker returns 0 and prints nothing, whatever the remote end would
    answer: the host is counted as a success. *)
Theorem bad_port_counts_as_success (w : world) (p : process)
  (text : string) :
  port (config (executor p)) = BadPort text ->
  _exec (python_version w) (executor p) (servers w (host p))
  = (Ok 0%Z, mkW 0 [] true)
  /\ is_ok (finished w p) = true.
Proof.
  intros Hp.
  assert (H : _exec (python_version w) (executor p) (servers w (host p))
              = (Ok 0%Z, mkW 0 [] true)).
  { assert (Hb : body (executor p) (servers w (host p)) initial
                 = (Raise (mkExc ValueError
                             ("invalid literal for int() with base 10: '"
                              ++ text ++ "'") None), initial)).
    { unfold body. unfold Worker.bind at 1. unfold Worker.lift at 1, int_port.
      now rewrite Hp. }
    rewrite exec_returns. unfold try_except. rewrite Hb. reflexivity. }
  split; [exact H|]. unfold is_ok, finished, run. cbn [exitcode].
  now rewrite H.
Qed.

Lemma bad_port_counts_as_success_witness :
  is_ok (finished (Sample.world_of (fun _ => Sample.noisy))
           (mkProcess 0
              (mkExecutor "web1" (mkConfig "web1" (BadPort "ssh") None)
                 (SSHExecutor "ls")) true None)) = true.
Proof.
  exact (proj2 (bad_port_counts_as_success
                  (Sample.world_of (fun _ => Sample.noisy))
                  (mkProcess 0
                     (mkExecutor "web1"
                        (mkConfig "web1" (BadPort "ssh") None)
                        (SSHExecutor "ls")) true None)
                  "ssh" eq_refl)).
Defined.

(** X7. The line for a paramiko error that has a message is not in red:
    the colour is given to [print], not to [colored].  Under Python 3 the
    line is the host and the message, the reset code, a space and the word
    [red]; under Python 2 it is the [repr] of the tuple made of that text
    and of the word.  The exit code is 1. *)
Theorem ssh_error_line_is_not_red (py : python) (self : Executor)
  (srv : server) (e : exc) (m : string) :
  fst (body self srv initial) = Raise e -> is_IOError e = false ->
  is_ssh_error e = true -> exc_message e = Some m ->
  _exec py self srv
  = (Ok 1%Z,
     mkW 1 (printed (snd (body self srv initial))
            ++ [match py with
                | Py2 =>
                    ("(" ++ Py.repr (prefixed (Worker.host self) m ++ RESET)
                     ++ ", 'red')")%string
                | Py3 =>
                    ((prefixed (Worker.host self) m ++ RESET) ++ " red")%string
                end])%list true).
Proof.
  intros Hb He Hs Hm.
  rewrite exec_returns. unfold try_except.
  destruct (body self srv initial) as [[[]|e'] s]; simpl in Hb;
    [discriminate|]. injection Hb as ->.
  unfold handlers. rewrite He, Hs. unfold Worker.bind, Worker.lift, message.
  rewrite Hm. now destruct py.
Qed.

Lemma ssh_error_line_is_not_red_witness :
  _exec Py3 (Sample.ls_on "web1")
    (mkServer
       (fun _ _ _ => Some (mkExc AuthException "Authentication failed."
                             (Some "Authentication failed.")))
       (fun _ => Ok Sample.noisy_channel) None (fun _ _ => None))
  = (Ok 1%Z,
     mkW 1 [("web1: Authentication failed." ++ RESET) ++ " red"] true)
  /\ _exec Py2 (Sample.ls_on "web1")
       (mkServer
          (fun _ _ _ => Some (mkExc AuthException "Authentication failed."
                                (Some "Authentication failed.")))
          (fun _ => Ok Sample.noisy_channel) None (fun _ _ => None))
     = (Ok 1%Z,
        mkW 1 ["('web1: Authentication failed.\x1b[0m', 'red')"] true).
Proof.
  split.
  - exact (ssh_error_line_is_not_red Py3 (Sample.ls_on "web1")
             (mkServer
                (fun _ _ _ =>
                   Some (mkExc AuthException "Authentication failed."
                           (Some "Authentication failed.")))
                (fun _ => Ok Sample.noisy_channel) None
                (fun _ _ => None))
             _ "Authentication failed." eq_refl eq_refl eq_refl eq_refl).
  - exact (ssh_error_line_is_not_red Py2 (Sample.ls_on "web1")
             (mkServer
                (fun _ _ _ =>
                   Some (mkExc AuthException "Authentication failed."
                           (Some "Authentication failed.")))
                (fun _ => Ok Sample.noisy_channel) None
                (fun _ _ => None))
             _ "Authentication failed." eq_refl eq_refl eq_refl eq_refl).
Defined.

(** X19. An [IOError] raised while connecting, running the operation or
    reading a stream is reported once: one red line with the host and the
    text of the error comes after what had been printed, the worker
    returns 1 and the host is a failure of the report. *)
Theorem io_error_is_reported_once (w : world) (p : process) (e : exc) :
  fst (body (executor p) (servers w (host p)) initial) = Raise e ->
  is_IOError e = true ->
  printed (snd (_exec (python_version w) (executor p) (servers w (host p))))
  = (printed (snd (body (executor p) (servers w (host p)) initial))
     ++ [colored (prefixed (host p) (exc_str e)) (Some red) []])%list
  /\ exitcode (finished w p) = Some 1%Z
  /\ is_ok (finished w p) = false.
Proof.
  intros Hb He.
  pose proof (io_error_reported (python_version w) (executor p)
                (servers w (host p)) e Hb He) as H.
  split; [now rewrite H|].
  unfold is_ok, finished, run. cbn [exitcode]. rewrite H. auto.
Qed.

Lemma io_error_is_reported_once_witness :
  printed
    (snd (_exec Py3 (Sample.ls_on "web1")
            (mkServer
               (fun _ _ _ => Some (mkExc IOError "Connection refused" None))
               (fun _ => Ok Sample.noisy_channel) None (fun _ _ => None))))
  = [colored "web1: Connection refused" (Some red) []].
Proof.
  exact (proj1 (io_error_is_reported_once
                  (Sample.world_of
                     (fun _ =>
                        mkServer
                          (fun _ _ _ =>
                             Some (mkExc IOError "Connection refused" None))
                          (fun _ => Ok Sample.noisy_channel) None
                          (fun _ _ => None)))
                  (Sample.worker "web1") _ eq_refl eq_refl)).
Defined.

End WorkerRuns.

(** ** More on the drain loop and the report *)

Section Draining.
Import Exn Session Termcolor Worker Pypsh Shape.

Local Arguments Pypsh.bind : simpl never.
Local Arguments Pypsh.emit : simpl never.




(** One turn of the drain loop that finds a worker running. *)
Lemma drain_step (w : world) (fuel tick : nat) (processes : list process)
  (k : nat) (ks : list nat) :
  active_children (map (settle w tick) processes) = k :: ks ->
  drain w (S fuel) tick processes
  = if match interrupt w with
       | Some t => Nat.eqb t tick
       | None => false
       end
    then
      (ActiveChildren (k :: ks) :: Sleep POLL :: KeyboardInterrupt
       :: map (fun p => Terminate (pid p)) processes,
       Returns (map (fun p => stop w (settle w tick p)) processes))
    else
      (ActiveChildren (k :: ks) :: Sleep POLL
       :: fst (drain w fuel (S tick) (map (settle w tick) processes)),
       snd (drain w fuel (S tick) (map (settle w tick) processes))).
Proof.
  intros Hc. simpl drain. rewrite Hc, for_each_emit.
  cbv beta iota zeta delta [Pypsh.bind emit Pypsh.ret].
  destruct (match interrupt w with
            | Some t => Nat.eqb t tick
            | None => false
            end).
  - simpl. rewrite app_nil_r, !map_map. f_equal. f_equal. f_equal. f_equal.
    apply map_ext. intros q. now rewrite settle_pid.
  - now destruct (drain w fuel (S tick) (map (settle w tick) processes)).
Qed.

Lemma drain_stops (w : world) (fuel tick : nat) (processes : list process) :
  active_children (map (settle w tick) processes) = [] ->
  drain w fuel tick processes
  = ([ActiveChildren []], Returns (map (settle w tick) processes)).
Proof. intros Hc. destruct fuel; simpl drain; rewrite Hc; reflexivity. Qed.

(** Without an interrupt the drain loop polls and sleeps, and does
    nothing else. *)
Lemma drain_quiet (w : world) (fuel tick : nat) (processes : list process) :
  interrupt w = None ->
  forall e, In e (fst (drain w fuel tick processes)) ->
            is_terminate e = false.
Proof.
  intros Hi. revert tick processes.
  induction fuel as [|fuel IH]; intros tick processes e;
    destruct (active_children (map (settle w tick) processes)) as [|k ks]
      eqn:Hc;
    try (rewrite (drain_stops w _ tick processes Hc);
         intros [<-|[]]; reflexivity).
  - simpl drain. rewrite Hc. simpl. intros [<-|[]]. reflexivity.
  - rewrite (drain_step w fuel tick processes k ks Hc), Hi. cbn [fst].
    intros [<-|[<-|He]]; try reflexivity. exact (IH _ _ e He).
Qed.


(** X8. When no interrupt comes, every worker runs to its end: the main
    process stops no worker, and each returned process has exited with
    the exit code of its own run. *)
Theorem uninterrupted_run_completes (w : world) (interval : float)
  (hosts : list string) f :
  interrupt w = None ->
  exists tr processes,
    start_procs w interval hosts f = (tr, Returns processes)
    /\ (forall e, In e tr -> is_terminate e = false)
    /\ forall p, In p processes ->
         alive p = false
         /\ exitcode p
            = Some (Worker.run (python_version w) (executor p)
                      (servers w (host p))).
Proof.
  intros Hi.
  destruct (start_procs_spec w interval hosts f)
    as (tr & g & Hs & Hg & _).
  set (L := launched_from w interval f 0 hosts) in *.
  assert (Hq : forall e, In e tr -> is_terminate e = false).
  { intros e He.
    apply (drain_quiet w (horizon w L) 0 L Hi).
    unfold start_procs in Hs. rewrite launch_spec, bind_returns in Hs.
    simpl app in Hs. fold L in Hs.
    destruct (drain w (horizon w L) 0 L) as [tr' o]. cbn [fst snd] in *.
    injection Hs as Htr _. apply app_inv_head in Htr. now subst tr'. }
  exists (flat_map (launch_events interval) L ++ tr)%list, (map g L).
  split; [exact Hs|]. split.
  - intros e He. apply in_app_or in He as [He|He]; [|now apply Hq].
    apply in_flat_map in He as (p & _ & He). unfold launch_events in He.
    destruct He as [<-|He]; [reflexivity|].
    destruct (throttled interval); [|destruct He].
    destruct He as [<-|[<-|[]]]; reflexivity.
  - intros q Hq'. apply in_map_iff in Hq' as (p & <- & Hp).
    destruct (Hg p Hp) as [Ha|Ha|Ha Hk].
    + split; [exact Ha|]. now apply (launched_exited w interval f 0 hosts).
    + split; reflexivity.
    + apply Hq in Hk. discriminate.
Qed.

Lemma uninterrupted_run_completes_witness :
  exists tr processes,
    start_procs (Sample.world_of (fun _ => Sample.noisy)) 0%float
      ["web1"; "web2"] (ssh_executer "ls")
    = (tr, Returns processes)
    /\ forall p, In p processes -> alive p = false.
Proof.
  destruct (uninterrupted_run_completes
              (Sample.world_of (fun _ => Sample.noisy)) 0%float
              ["web1"; "web2"] (ssh_executer "ls") eq_refl)
    as (tr & processes & Hs & _ & Hp).
  exists tr, processes. split; [exact Hs|].
  intros p Hin. exact (proj1 (Hp p Hin)).
Defined.



(** X10. An interval that is not above zero, be it zero, negative or not
    a number, gives the run of interval 0: the workers are started without
    a join and without a sleep in between. *)
Theorem interval_not_above_zero (w : world) (interval : float)
  (hosts : list string) f :
  throttled interval = false ->
  start_procs w interval hosts f = start_procs w 0%float hosts f
  /\ forall e, In e (fst (launch w interval f hosts [])) -> is_wait e = false.
Proof.
  intros Ht.
  assert (Hl : launched_from w interval f 0 hosts
               = launched_from w 0%float f 0 hosts).
  { generalize 0. induction hosts as [|h hosts IH]; intros n;
      [reflexivity|].
    simpl. rewrite IH. f_equal. unfold launched. now rewrite Ht. }
  split.
  - unfold start_procs.
    rewrite (concurrent_launch w interval hosts f Ht).
    rewrite (concurrent_launch w 0%float hosts f eq_refl).
    now rewrite Hl.
  - rewrite (concurrent_launch w interval hosts f Ht). cbn [fst].
    intros e He. apply in_map_iff in He as (p & <- & _). reflexivity.
Qed.

Lemma interval_not_above_zero_witness :
  throttled (-2.5)%float = false /\ throttled nan = false
  /\ start_procs (Sample.world_of (fun _ => Sample.quiet)) nan
       ["web1"; "web2"] (ssh_executer "ls")
     = start_procs (Sample.world_of (fun _ => Sample.quiet)) 0%float
         ["web1"; "web2"] (ssh_executer "ls").
Proof.
  split; [reflexivity|]. split; [reflexivity|].
  exact (proj1 (interval_not_above_zero
                  (Sample.world_of (fun _ => Sample.quiet)) nan
                  ["web1"; "web2"] (ssh_executer "ls") eq_refl)).
Defined.

(** X11. The report lists a process as a failure exactly when its exit
    code is not 0, be it another number or absent; the successes are the
    processes whose exit code is 0. *)
Theorem failure_means_not_zero (processes : list process) (p : process) :
  (In p (failures processes) <->
   In p processes /\ exitcode p <> Some 0%Z)
  /\ num_ok processes
     = List.length (filter (fun q => match exitcode q with
                                     | Some 0%Z => true
                                     | _ => false
                                     end) processes).
Proof.
  assert (Hok : forall q, is_ok q = match exitcode q with
                                    | Some 0%Z => true
                                    | _ => false
                                    end).
  { intros q. unfold is_ok. destruct (exitcode q) as [[| |]|]; reflexivity. }
  split.
  - unfold failures. split.
    + intros H.
      apply (Permutation_in _ (Permutation_sym (sorted_perm host _))) in H.
      apply filter_In in H as [Hp Hf]. split; [exact Hp|].
      intros He. rewrite Hok, He in Hf. discriminate.
    + intros [Hp Hne]. apply (Permutation_in _ (sorted_perm host _)).
      apply filter_In. split; [exact Hp|]. rewrite Hok.
      destruct (exitcode p) as [[| |]|]; try reflexivity. now elim Hne.
  - rewrite num_ok_length. reflexivity.
Qed.

(** [cmd] returns, whatever its workers do: it prints its two lines, runs
    [start_procs], and prints the report. *)
Lemma cmd_returns (w : world) (hosts : list string) (command : string)
  (interval : float) :
  exists tr processes,
    start_procs w interval hosts (ssh_executer command)
    = (tr, Returns processes)
    /\ cmd w hosts command interval
       = ((Print ">>> Starting to execute the command(s):" :: Print "" :: tr
           ++ fst (print_result processes))%list,
          Returns tt).
Proof.
  destruct (start_procs_spec w interval hosts (ssh_executer command))
    as (tr & g & Hs & _).
  eexists _, _. split; [exact Hs|].
  unfold cmd, print. unfold emit at 1 2. rewrite !bind_returns, Hs.
  rewrite bind_returns. rewrite print_result_lines. reflexivity.
Qed.

Lemma copy_returns (w : world) (source : string) (hosts : list string)
  (destination : string) (interval : float) :
  isfile w source = true ->
  exists tr processes,
    start_procs w interval hosts (copy_executer source destination)
    = (tr, Returns processes)
    /\ copy w source hosts destination interval
       = ((Print ">>> Starting to copy the file:" :: Print "" :: tr
           ++ fst (print_result processes))%list,
          Returns tt).
Proof.
  intros Hf.
  destruct (start_procs_spec w interval hosts
              (copy_executer source destination)) as (tr & g & Hs & _).
  eexists _, _. split; [exact Hs|].
  unfold copy, print. rewrite Hf. simpl negb. cbv iota.
  unfold emit at 1 2. rewrite !bind_returns, Hs.
  rewrite bind_returns. rewrite print_result_lines. reflexivity.
Qed.

(** X12. The exit status does not tell failures.  When the store is
    read, the pattern compiles, [~/.ssh/config] is opened and parsed, the
    sleep between two hosts, if one is asked for, returns and, for a copy,
    the source is a file, [dispatch] returns normally, so the invocation
    ends with status 0, however many workers failed; the report is the
    last thing it prints, and there is one process per selected host. *)
Theorem dispatch_ends_with_status_zero (m : Whole.setting) (w : world)
  (a : args) (keys : list string) (r : Re.regex) :
  Whole.opening m = None ->
  (throttled (interval a) = true -> Whole.sleeping m (interval a) = None) ->
  known_hosts w = Ok keys -> Re.compile (hostregex a) = Re.Compiled r ->
  fatal_error w a = None ->
  exists tr processes,
    Whole.dispatch m w a
    = ((tr ++ fst (print_result processes))%list, Returns tt)
    /\ exit_status (snd (Whole.dispatch m w a)) = Some 0%Z
    /\ List.length processes
       = List.length (filter (Re.rmatch r) keys).
Proof.
  intros Ho Hsl Hk Hc Hf. rewrite (whole_dispatch m w a Ho Hsl).
  unfold dispatch.
  rewrite (get_hosts_spec w (hostregex a) keys r Hk Hc). cbv zeta.
  rewrite bind_returns.
  assert (Hlen : forall iv hs g tr ps,
            start_procs w iv hs g = (tr, Returns ps) ->
            List.length ps = List.length hs).
  { intros iv hs g tr ps Hs.
    destruct (start_procs_spec w iv hs g) as (tr' & g' & Hs' & _).
    rewrite Hs' in Hs. injection Hs as _ <-.
    rewrite length_map. apply launched_from_length. }
  unfold fatal_error in Hf. rewrite Hk, Hc in Hf.
  destruct (sub a) as [command|source destination].
  - destruct (cmd_returns w (filter (Re.rmatch r) keys) command (interval a))
      as (tr & ps & Hs & ->).
    cbn [fst snd].
    match goal with
    | |- context [(?l ++ ?x :: ?y :: tr ++ _)%list] =>
        exists (l ++ x :: y :: tr)%list, ps
    end.
    split; [|split].
    + rewrite <- app_assoc. reflexivity.
    + reflexivity.
    + exact (Hlen _ _ _ _ _ Hs).
  - destruct (isfile w source) eqn:Hi; [|discriminate].
    destruct (copy_returns w source (filter (Re.rmatch r) keys) destination
                (interval a) Hi) as (tr & ps & Hs & ->).
    cbn [fst snd].
    match goal with
    | |- context [(?l ++ ?x :: ?y :: tr ++ _)%list] =>
        exists (l ++ x :: y :: tr)%list, ps
    end.
    split; [|split].
    + rewrite <- app_assoc. reflexivity.
    + reflexivity.
    + exact (Hlen _ _ _ _ _ Hs).
Qed.

Lemma dispatch_ends_with_status_zero_witness :
  exit_status
    (snd (Whole.dispatch Whole.ready (Sample.world_of (fun _ => Sample.noisy))
            (mkArgs "web" 1.5%float (CmdArgs "ls"))))
  = Some 0%Z
  /\ num_ok (map (finished (Sample.world_of (fun _ => Sample.noisy)))
               [Sample.worker "web1"; Sample.worker "web2"]) = 0.
Proof.
  destruct (dispatch_ends_with_status_zero Whole.ready
              (Sample.world_of (fun _ => Sample.noisy))
              (mkArgs "web" 1.5%float (CmdArgs "ls")) Sample.store
              (Re.Cat (Re.Chr "w") (Re.Cat (Re.Chr "e") (Re.Chr "b")))
              eq_refl (fun _ => eq_refl) eq_refl eq_refl eq_refl)
    as (tr & ps & _ & He & _).
  split; [exact He|reflexivity].
Defined.

End Draining.

(** ** More on host selection *)

Section Patterns.
Import Exn Session Termcolor Worker Pypsh Shape.
Import Re.

Lemma string_app_nil (s : string) : s ++ "" = s.
Proof. induction s; simpl; congruence. Qed.

Lemma string_app_assoc (s t u : string) : (s ++ t) ++ u = s ++ t ++ u.
Proof. induction s; simpl; congruence. Qed.

Lemma matches_seq_app (rs ss : list regex) (u : string) :
  matches_seq (rs ++ ss) u
  <-> exists u1 u2, u = u1 ++ u2 /\ matches_seq rs u1 /\ matches_seq ss u2.
Proof.
  revert u. induction rs as [|r rs IH]; intros u; simpl.
  - split.
    + intros H. exists "", u. auto.
    + intros (u1 & u2 & -> & -> & H). exact H.
  - split.
    + intros (u1 & u2 & -> & Hr & H). apply IH in H as (v1 & v2 & -> & H1 & H2).
      exists (u1 ++ v1), v2. rewrite string_app_assoc.
      split; [reflexivity|]. split; [|exact H2]. exists u1, v1.
      split; [reflexivity|]. split; assumption.
    + intros (u1 & u2 & -> & (v1 & v2 & -> & Hr & H1) & H2).
      exists v1, (v2 ++ u2). rewrite string_app_assoc.
      split; [reflexivity|]. split; [exact Hr|]. apply IH. eauto.
Qed.

Lemma fold_cat_spec (rest : list regex) (acc : regex) (u : string) :
  matches (fold_left (fun acc x => Cat x acc) rest acc) u
  <-> exists u1 u2,
        u = u1 ++ u2 /\ matches_seq (rev rest) u1 /\ matches acc u2.
Proof.
  revert acc u. induction rest as [|x rest IH]; intros acc u; simpl.
  - split.
    + intros H. exists "", u. repeat split; try assumption.
    + intros (u1 & u2 & -> & -> & H). exact H.
  - rewrite IH. split.
    + intros (u1 & u2 & -> & H1 & H2).
      apply cat_inv in H2 as (v1 & v2 & -> & Hx & Ha).
      exists (u1 ++ v1), v2. rewrite string_app_assoc.
      split; [reflexivity|]. split; [|exact Ha].
      apply matches_seq_app. exists u1, v1. split; [reflexivity|].
      split; [exact H1|]. exists v1, "". rewrite string_app_nil.
      repeat split; try assumption.
    + intros (u1 & u2 & -> & H1 & H2).
      apply matches_seq_app in H1
        as (v1 & v2 & -> & Hv1 & (x1 & x2 & -> & Hx & ->)).
      exists v1, (x1 ++ u2). rewrite string_app_nil, string_app_assoc.
      split; [reflexivity|]. split; [exact Hv1|]. now constructor.
Qed.

(** The items of a branch, most recent first, stand for the strings made
    of a match of each, oldest first. *)
Lemma seq_of_spec (items : list regex) (u : string) :
  matches (seq_of items) u <-> matches_seq (rev items) u.
Proof.
  destruct items as [|r rest]; simpl.
  - split; intros H; [now inversion H|subst; constructor].
  - rewrite fold_cat_spec, matches_seq_app. simpl. split.
    + intros (u1 & u2 & -> & H1 & H2). exists u1, u2.
      split; [reflexivity|]. split; [exact H1|].
      exists u2, "". rewrite string_app_nil.
      repeat split; try assumption.
    + intros (u1 & u2 & -> & H1 & (x1 & x2 & -> & Hx & ->)).
      exists u1, x1. rewrite string_app_nil.
      repeat split; try assumption.
Qed.

Lemma matches_chars (s u : string) : matches_seq (chars s) u <-> u = s.
Proof.
  revert u. induction s as [|c s IH]; intros u; simpl; [reflexivity|].
  split.
  - intros (u1 & u2 & -> & Hc & H). apply IH in H. subst.
    now inversion Hc.
  - intros ->. exists (String c ""), s. split; [reflexivity|].
    split; [constructor|now apply IH].
Qed.

(** An ordinary character is read as itself. *)
Lemma step_plain (st : pstate) (c : ascii) :
  special c = false -> md st <> Escaped -> step st c = literal c st.
Proof.
  intros Hc Hm. unfold step.
  destruct (md st); [|now elim Hm|];
    destruct c as [[] [] [] [] [] [] [] []]; try reflexivity;
    discriminate Hc.
Qed.

Lemma run_plain (s : string) (st : pstate) :
  plain s = true -> md st <> Escaped -> stack st = [] ->
  branches (top st) = [] ->
  run st s = Compiled (seq_of (rev (chars s) ++ items (top st))%list).
Proof.
  revert st. induction s as [|c s IH]; intros st Hp Hm Hs Hb.
  - simpl. rewrite Hs. unfold close_frame. rewrite Hb.
    destruct (md st); [reflexivity|now elim Hm|reflexivity].
  - simpl in Hp. apply andb_true_iff in Hp as [Hc Hp].
    apply negb_true_iff in Hc.
    simpl run. rewrite (step_plain st c Hc Hm). unfold literal.
    rewrite IH; simpl; auto; [|discriminate].
    now rewrite <- app_assoc.
Qed.

(** A pattern of ordinary characters compiles to a pattern that stands
    for that one string. *)
Lemma compile_plain (s : string) :
  plain s = true ->
  exists r, compile s = Compiled r /\ forall u, matches r u <-> u = s.
Proof.
  intros Hp. unfold compile.
  rewrite (run_plain s _ Hp); [|discriminate|reflexivity|reflexivity].
  eexists. split; [reflexivity|]. intros u. simpl.
  rewrite app_nil_r, seq_of_spec, rev_involutive. apply matches_chars.
Qed.

(** Character sets: one that is closed is outside of the fragment, one
    that is not is an error. *)
Example character_sets :
  compile "web[0-9]" = Unsupported
  /\ compile "web[]]" = Unsupported
  /\ compile "web[" = Invalid "unterminated character set"
  /\ compile "web[]" = Invalid "unterminated character set"
  /\ compile "web[^]" = Invalid "unterminated character set"
  /\ compile "web[0-9\]" = Invalid "unterminated character set"
  /\ compile "web\[" = Compiled (seq_of (rev (chars "web[")))%list.
Proof. repeat split. Qed.

(** X13. A pattern made of ordinary characters selects the stored hosts
    that begin with it, and the empty pattern selects them all. *)
Theorem plain_pattern_selects_by_prefix (w : world) (pattern : string)
  (keys : list string) :
  plain pattern = true -> known_hosts w = Ok keys ->
  exists tr hosts,
    get_hosts w pattern = (tr, Returns hosts)
    /\ (forall k, In k hosts <-> In k keys /\ exists v, k = pattern ++ v)
    /\ (pattern = "" -> hosts = keys).
Proof.
  intros Hp Hk. destruct (compile_plain pattern Hp) as (r & Hc & Hr).
  rewrite (get_hosts_spec w pattern keys r Hk Hc). cbv zeta.
  eexists _, _. split; [reflexivity|]. split.
  - intros k. rewrite filter_In, rmatch_spec. split.
    + intros (Hin & u & v & -> & Hu). apply Hr in Hu. subst. eauto.
    + intros (Hin & v & ->). split; [exact Hin|].
      exists pattern, v. split; [reflexivity|]. now apply Hr.
  - intros ->. clear Hk. induction keys as [|k keys IH]; [reflexivity|].
    simpl. replace (rmatch r k) with true; [now rewrite IH|].
    symmetry. apply rmatch_spec. exists "", k. split; [reflexivity|].
    now apply Hr.
Qed.

Lemma plain_pattern_selects_by_prefix_witness :
  exists tr,
    get_hosts (Sample.world_of (fun _ => Sample.quiet)) "db"
    = (tr, Returns ["db1"]).
Proof.
  destruct (plain_pattern_selects_by_prefix
              (Sample.world_of (fun _ => Sample.quiet)) "db" Sample.store
              eq_refl eq_refl) as (tr & hosts & Hg & _).
  exists tr.
  assert (E : snd (get_hosts (Sample.world_of (fun _ => Sample.quiet)) "db")
              = Returns ["db1"]) by reflexivity.
  rewrite Hg in E. cbn [snd] in E. injection E as ->. exact Hg.
Defined.

(** X14. A pattern that matches the empty string selects every stored
    host, in the order of the store. *)
Theorem nullable_pattern_selects_all (w : world) (pattern : string)
  (keys : list string) (r : regex) :
  known_hosts w = Ok keys -> compile pattern = Compiled r ->
  nullable r = true ->
  snd (get_hosts w pattern) = Returns keys.
Proof.
  intros Hk Hc Hn. rewrite (get_hosts_spec w pattern keys r Hk Hc).
  cbn [snd]. f_equal. clear Hk.
  induction keys as [|k keys IH]; [reflexivity|]. simpl.
  replace (rmatch r k) with true; [now rewrite IH|].
  destruct k; simpl; now rewrite Hn.
Qed.

Lemma nullable_pattern_selects_all_witness :
  snd (get_hosts (Sample.world_of (fun _ => Sample.quiet)) "(web)?x*")
  = Returns ["web1"; "web2"; "db1"].
Proof.
  exact (nullable_pattern_selects_all
           (Sample.world_of (fun _ => Sample.quiet)) "(web)?x*" Sample.store
           _ eq_refl eq_refl eq_refl).
Defined.

End Patterns.

(** ** The command line *)

Section CommandLine.
Import Exn Session Termcolor Worker Pypsh Shape Cli.

Local Arguments Pypsh.bind : simpl never.

(** The interactive loop as long as lines come: one [cmd] per line, in the
    order of the lines. *)
Lemma interact_lines (w : world) (hosts : list string)
  (lines rest : list string) :
  Forall (fun l => l <> "") lines ->
  interact w hosts (lines ++ rest)%list
  = ((flat_map (fun l => fst (cmd w hosts l 0%float)) lines
      ++ fst (interact w hosts rest))%list,
     snd (interact w hosts rest)).
Proof.
  induction 1 as [|l lines Hl _ IH]; simpl app.
  - now destruct (interact w hosts rest).
  - change (interact w hosts (l :: lines ++ rest)%list)
      with (if String.eqb l "" then sys_exit (Status 0)
            else Pypsh.bind (cmd w hosts l 0%float)
                   (fun _ => interact w hosts (lines ++ rest)%list)).
    apply String.eqb_neq in Hl. rewrite Hl.
    destruct (cmd_returns w hosts l 0%float) as (tr & ps & _ & Hc).
    rewrite Hc, bind_returns, IH. cbn [fst snd flat_map].
    now rewrite <- app_assoc.
Qed.

(** X15. The short form [pypsh <pattern> <command>]: when a host matches,
    the command is not the word [help] and [~/.ssh/config] is opened and
    parsed, [main] runs the command once, without throttling, and exits
    with status 0; the argument parser is not asked, and the status is 0
    whatever the workers returned. *)
Theorem one_shot_runs_once (m : Whole.setting) (w : world)
  (prog pattern command : string) (stdin : list string)
  (parse_args : P args) (tg : list event) (h : string)
  (hosts : list string) :
  Whole.opening m = None ->
  get_hosts w pattern = (tg, Returns (h :: hosts)) -> command <> "help" ->
  Whole.main m w [prog; pattern; command] stdin parse_args
  = ((tg ++ fst (Whole.cmd m w (h :: hosts) command 0%float))%list,
     Exits (Status 0))
  /\ snd (Whole.cmd m w (h :: hosts) command 0%float) = Returns tt.
Proof.
  intros Ho Hg Hc. unfold Whole.main.
  rewrite Hg, bind_returns. apply String.eqb_neq in Hc. rewrite Hc.
  rewrite !(whole_cmd_at_once m w (h :: hosts) command Ho).
  destruct (cmd_returns w (h :: hosts) command 0%float)
    as (tr & ps & _ & Hcmd).
  split; [|now rewrite Hcmd].
  rewrite Hcmd, bind_returns.
  cbn [fst snd sys_exit]. rewrite app_nil_r.
  unfold Pypsh.bind. reflexivity.
Qed.

Lemma one_shot_runs_once_witness :
  snd (Whole.main Whole.ready (Sample.world_of (fun _ => Sample.noisy))
         ["pypsh"; "web"; "uptime"] [] ([], Exits (Status 2)))
  = Exits (Status 0).
Proof.
  destruct (one_shot_runs_once Whole.ready
              (Sample.world_of (fun _ => Sample.noisy))
              "pypsh" "web" "uptime" [] ([], Exits (Status 2)) _ "web1"
              ["web2"] eq_refl eq_refl) as [Hm _]; [discriminate|].
  rewrite Hm. reflexivity.
Defined.

(** X16. The interactive form [pypsh <pattern>]: when a host matches and
    [~/.ssh/config] is opened and parsed, [main] runs one command per
    line read, in the order of the lines and without throttling, a
    failing host not ending the loop; at the end of the input it exits
    with status 0. *)
Theorem interactive_runs_each_line (m : Whole.setting) (w : world)
  (prog pattern : string) (lines rest : list string) (parse_args : P args)
  (tg : list event) (h : string) (hosts : list string) :
  Whole.opening m = None ->
  get_hosts w pattern = (tg, Returns (h :: hosts)) ->
  Forall (fun l => l <> "") lines ->
  Whole.main m w [prog; pattern] (lines ++ "" :: rest)%list parse_args
  = ((tg ++ flat_map (fun l => fst (Whole.cmd m w (h :: hosts) l 0%float))
              lines)%list,
     Exits (Status 0)).
Proof.
  intros Ho Hg Hl. unfold Whole.main.
  rewrite Hg, bind_returns, (whole_interact m w (h :: hosts) _ Ho).
  replace (flat_map (fun l => fst (Whole.cmd m w (h :: hosts) l 0%float))
             lines)
    with (flat_map (fun l => fst (cmd w (h :: hosts) l 0%float)) lines).
  - rewrite (interact_lines w (h :: hosts) lines ("" :: rest) Hl).
    simpl interact. cbn [fst snd sys_exit]. rewrite app_nil_r.
    unfold Pypsh.bind. reflexivity.
  - apply flat_map_ext. intros l.
    now rewrite (whole_cmd_at_once m w (h :: hosts) l Ho).
Qed.

Lemma interactive_runs_each_line_witness :
  snd (Whole.main Whole.ready (Sample.world_of (fun _ => Sample.quiet))
         ["pypsh"; "web"] ["uptime"; "date"; ""] ([], Exits (Status 2)))
  = Exits (Status 0).
Proof.
  assert (Hl : Forall (fun l : string => l <> "") ["uptime"; "date"])
    by (repeat constructor; discriminate).
  exact (f_equal snd
           (interactive_runs_each_line Whole.ready
              (Sample.world_of (fun _ => Sample.quiet)) "pypsh" "web"
              ["uptime"; "date"] [] ([], Exits (Status 2)) _ "web1"
              ["web2"] eq_refl eq_refl Hl)).
Defined.

(** X17. The short forms go on to the argument parser when no host
    matches, when the command is the word [help], or when no input is
    ready: [main] then does what the parser and [dispatch] do, after the
    lines [get_hosts] has printed, and no command has been run. *)
Theorem short_form_falls_to_parser (w : world) (prog pattern : string)
  (more stdin : list string) (parse_args : P args) (tg : list event)
  (hosts : list string) :
  get_hosts w pattern = (tg, Returns hosts) ->
  (more = [] /\ (hosts = [] \/ stdin = []))
  \/ (exists command,
        more = [command] /\ (hosts = [] \/ command = "help")) ->
  main w (prog :: pattern :: more) stdin parse_args
  = ((tg ++ fst (Pypsh.bind parse_args (dispatch w)))%list,
     snd (Pypsh.bind parse_args (dispatch w))).
Proof.
  intros Hg H. unfold main.
  destruct H as [[-> H]|(command & -> & H)]; rewrite Hg, bind_returns.
  - destruct hosts as [|h hosts].
    + cbn [Pypsh.ret fst snd]. now rewrite bind_returns, app_nil_r.
    + destruct H as [H| ->]; [discriminate|]. simpl interact.
      cbn [Pypsh.ret fst snd]. now rewrite bind_returns, app_nil_r.
  - destruct hosts as [|h hosts].
    + cbn [Pypsh.ret fst snd]. now rewrite bind_returns, app_nil_r.
    + destruct H as [H| ->]; [discriminate|]. simpl String.eqb.
      cbn [Pypsh.ret fst snd]. now rewrite bind_returns, app_nil_r.
Qed.

Lemma short_form_falls_to_parser_witness :
  main (Sample.world_of (fun _ => Sample.quiet)) ["pypsh"; "web"; "help"] []
    ([Print "usage"], Exits (Status 2))
  = ((fst (get_hosts (Sample.world_of (fun _ => Sample.quiet)) "web")
      ++ [Print "usage"])%list,
     Exits (Status 2)).
Proof.
  assert (Hh : ["help"] = [] /\ (["web1"; "web2"] = [] \/ @nil string = [])
               \/ exists command : string,
                    ["help"] = [command]
                    /\ (["web1"; "web2"] = [] \/ command = "help"))
    by (right; exists "help"; auto).
  exact (short_form_falls_to_parser
           (Sample.world_of (fun _ => Sample.quiet)) "pypsh" "web"
           ["help"] [] ([Print "usage"], Exits (Status 2)) _
           ["web1"; "web2"] eq_refl Hh).
Defined.

(** X18. In the short forms an error of the host selection ends [main]
    as it ends [get_hosts]: nothing more is printed, the parser is not
    asked and no worker is started. *)
Theorem short_form_stops_on_selection_error (w : world)
  (prog pattern : string) (more stdin : list string) (parse_args : P args)
  (arg : exit_arg) :
  List.length more <= 1 -> snd (get_hosts w pattern) = Exits arg ->
  main w (prog :: pattern :: more) stdin parse_args
  = (fst (get_hosts w pattern), Exits arg)
  /\ forall e, In e (fst (get_hosts w pattern)) -> is_start e = false.
Proof.
  intros Hm Hg. split.
  - unfold main. destruct more as [|command [|x more]];
      [| |simpl in Hm; lia];
      destruct (get_hosts w pattern) as [tg o]; simpl in Hg; subst o;
      reflexivity.
  - unfold get_hosts. intros e.
    destruct (known_hosts w) as [keys|ex].
    + destruct (Re.compile pattern) as [r|msg|]; simpl;
        intuition (subst; reflexivity).
    + destruct (is_ssh_error ex); [|simpl; tauto].
      unfold message. destruct (exc_message ex); simpl;
        intuition (subst; reflexivity).
Qed.

Lemma short_form_stops_on_selection_error_witness :
  main (Sample.world_of (fun _ => Sample.quiet)) ["pypsh"; "web("; "ls"] []
    ([Print "usage"], Exits (Status 2))
  = ([], Exits (Message (colored "Invalid regular expression!" (Some red)
                           [bold]))).
Proof.
  exact (proj1 (short_form_stops_on_selection_error
                  (Sample.world_of (fun _ => Sample.quiet)) "pypsh" "web("
                  ["ls"] [] ([Print "usage"], Exits (Status 2)) _
                  (le_n 1) eq_refl)).
Defined.

End CommandLine.
